(** * MaskClipHead: a shallow embedding of [mmseg/models/decode_heads/maskclip_head.py]

    Tensors are nested lists in the layout the source uses (NCHW for
    feature and logit maps, (N, L, C) for token sequences); a shape is
    read off the first elements, so the model speaks about tensors with
    no axis of size zero, and the theorems say so where it matters.
    Tensor elements are kept abstract behind the [Scalar] interface,
    with two instances: the real numbers (the idealised arithmetic the
    head's formulas are written in) and IEEE-754 binary floats (where
    the behaviour of NaN matters).  In-place updates of a tensor are
    modelled by the updated value.  Python exceptions are values of the
    result monad [res].

    The definitions follow the source method by method: [__init__]'s
    treatment of [vote_thresh], [load_visual_projs], [forward] (with
    its projector), [cls_seg] and [refine_output], whose four blocks
    are [gate_stage] (top-k or confidence gating), [vote_stage] and
    [bg_stage].  The properties follow the definitions. *)

From Stdlib Require Import String Ascii.
From Stdlib Require Import List ZArith Bool Arith Lia.
From Stdlib Require Import Reals Lra.
From Stdlib Require Floats.
Import ListNotations.

Set Implicit Arguments.

(** ** Python exceptions and the result monad *)

Inductive pyerr : Type :=
| AssertionError
| AttributeError
| IndexError
| KeyError
| RuntimeError
| TypeError.

Inductive res (A : Type) : Type :=
| Ok (a : A)
| Err (e : pyerr).

Arguments Ok {A} a.
Arguments Err {A} e.

Definition bind {A B : Type} (m : res A) (f : A -> res B) : res B :=
  match m with
  | Ok a => f a
  | Err e => Err e
  end.

Notation "x <- m ;; k" := (bind m (fun x => k))
  (at level 61, m at next level, right associativity).

Fixpoint mapM {A B : Type} (f : A -> res B) (l : list A) : res (list B) :=
  match l with
  | [] => Ok []
  | a :: l' => b <- f a ;; bs <- mapM f l' ;; Ok (b :: bs)
  end.

Definition tabulate {A : Type} (n : nat) (f : nat -> A) : list A :=
  map f (seq 0 n).

Definition zipWith {A B C : Type} (f : A -> B -> C) (a : list A) (b : list B) : list C :=
  map (fun p => f (fst p) (snd p)) (combine a b).

(** ** Tensor elements *)

Class Scalar (T : Type) : Type := {
  sconst : Z -> T;            (* an integer literal such as -100 or 100 *)
  seps : T;                   (* 1e-12, the default [eps] of F.normalize *)
  sadd : T -> T -> T;
  smul : T -> T -> T;
  sdiv : T -> T -> T;
  ssqrt : T -> T;
  sltb : T -> T -> bool;      (* x < y *)
  sisnan : T -> bool          (* torch.isnan *)
}.

Class ScalarExp (T : Type) : Type := {
  sexp : T -> T
}.

#[global] Instance Scalar_R : Scalar R := {|
  sconst := IZR;
  seps := (1 / 1000000000000)%R;
  sadd := Rplus;
  smul := Rmult;
  sdiv := Rdiv;
  ssqrt := sqrt;
  sltb := fun x y => if Rlt_dec x y then true else false;
  sisnan := fun _ => false
|}.

#[global] Instance ScalarExp_R : ScalarExp R := {| sexp := exp |}.

Definition float_of_Z (z : Z) : PrimFloat.float :=
  match z with
  | Z0 => PrimFloat.of_uint63 (Uint63.of_Z 0)
  | Zpos _ => PrimFloat.of_uint63 (Uint63.of_Z z)
  | Zneg _ => PrimFloat.opp (PrimFloat.of_uint63 (Uint63.of_Z (Z.opp z)))
  end.

#[global] Instance Scalar_float : Scalar PrimFloat.float := {|
  sconst := float_of_Z;
  seps := PrimFloat.div (float_of_Z 1) (float_of_Z 1000000000000);
  sadd := PrimFloat.add;
  smul := PrimFloat.mul;
  sdiv := PrimFloat.div;
  ssqrt := PrimFloat.sqrt;
  sltb := PrimFloat.ltb;
  sisnan := PrimFloat.is_nan
|}.

(** ** Tensors as nested lists *)

Abbreviation tensor1 T := (list T) (only parsing).
Abbreviation tensor2 T := (list (tensor1 T)) (only parsing).
Abbreviation tensor3 T := (list (tensor2 T)) (only parsing).
Abbreviation tensor4 T := (list (tensor3 T)) (only parsing).

Section Tensors.
Context {T : Type} {ST : Scalar T}.

Definition szero : T := sconst 0.

Definition at1 (v : tensor1 T) (i : nat) : T := nth i v szero.
Definition at2 (m : tensor2 T) (i j : nat) : T := at1 (nth i m []) j.
Definition at3 (t : tensor3 T) (i j k : nat) : T := at2 (nth i t []) j k.
Definition at4 (t : tensor4 T) (n c h w : nat) : T := at3 (nth n t []) c h w.

(** [t.shape] of a rectangular tensor. *)
Definition shape3 (t : tensor3 T) : nat * nat * nat :=
  (length t, length (hd [] t), length (hd [] (hd [] t))).
Definition shape4 (t : tensor4 T) : nat * nat * nat * nat :=
  (length t, length (hd [] t), length (hd [] (hd [] t)),
   length (hd [] (hd [] (hd [] t)))).

Definition wf2 (R C : nat) (m : tensor2 T) : Prop :=
  length m = R /\ Forall (fun r => length r = C) m.
Definition wf3 (A B C : nat) (t : tensor3 T) : Prop :=
  length t = A /\ Forall (wf2 B C) t.
Definition wf4 (N C H W : nat) (t : tensor4 T) : Prop :=
  length t = N /\ Forall (wf3 C H W) t.

Definition map4 {U : Type} (f : T -> U) (t : tensor4 T) : list (list (list (list U))) :=
  map (map (map (map f))) t.

(** [t.new_full((N, C, H, W), v)] *)
Definition new_full (N C H W : nat) (v : T) : tensor4 T :=
  repeat (repeat (repeat (repeat v W) H) C) N.

Definition sum_list (l : list T) : T := fold_left sadd l szero.

(** Inner product, accumulated left to right. *)
Definition dot (a b : list T) : T := sum_list (zipWith smul a b).

(** [v.norm()] with the default p = 2. *)
Definition norm2 (v : list T) : T := ssqrt (sum_list (map (fun x => smul x x) v)).

(** The larger of two values as [torch.max] reduces them: a NaN on
    either side is the result. *)
Definition smax (a b : T) : T :=
  if sisnan a then a
  else if sisnan b then b
  else if sltb a b then b else a.

(** Maximum of a non-empty list (callers rule out the empty one, on
    which torch raises). *)
Definition max_list (l : list T) : T := fold_left smax (tl l) (hd szero l).

(** The channel vector [s[:, h, w]] of one sample [s] of shape (C, H, W). *)
Definition pixel (s : tensor3 T) (h w : nat) : list T :=
  map (fun ch => at2 ch h w) s.

(** The column [m[:, j]] of a matrix. *)
Definition col (m : tensor2 T) (j : nat) : list T :=
  map (fun r => at1 r j) m.

(** [m.t()] / [m.transpose(-2, -1)] *)
Definition transpose2 (m : tensor2 T) : tensor2 T :=
  tabulate (length (hd [] m)) (col m).

(** [a @ b] for matrices; torch raises on mismatched inner sizes. *)
Definition matmul (a b : tensor2 T) : res (tensor2 T) :=
  if Nat.eqb (length (hd [] a)) (length b)
  then Ok (map (fun r => tabulate (length (hd [] b)) (fun j => dot r (col b j))) a)
  else Err RuntimeError.

(** [a @ b] for batched matrices; a batch of size one is broadcast. *)
Definition bmm (a b : tensor3 T) : res (tensor3 T) :=
  let na := length a in
  let nb := length b in
  if Nat.eqb na nb || Nat.eqb na 1 || Nat.eqb nb 1
  then mapM (fun i => matmul (nth (if Nat.eqb na 1 then 0 else i) a [])
                             (nth (if Nat.eqb nb 1 then 0 else i) b []))
            (seq 0 (if Nat.eqb na 1 then nb else na))
  else Err RuntimeError.

(** [t.view(N, C, -1)]: the two spatial axes flattened into one. *)
Definition flatten_hw (t : tensor4 T) : tensor3 T := map (map (@concat T)) t.

(** [t.view(N, C, H, W)] of a tensor of shape (N, C, H*W). *)
Definition unflatten_hw (H W : nat) (t : tensor3 T) : tensor4 T :=
  map (map (fun v => tabulate H (fun h => firstn W (skipn (h * W) v)))) t.

(** [F.conv2d(x, weight, bias)] for a filter bank of 1x1 kernels, given
    as the matrix [weight[:, :, 0, 0]] (out_channels x in_channels); this
    is the only kind of convolution the head uses.  The input must have
    as many channels as the filters. *)
Definition conv2d (x : tensor4 T) (weight : tensor2 T) (bias : option (list T))
  : res (tensor4 T) :=
  let '(N, C, H, W) := shape4 x in
  if Nat.eqb C (length (hd [] weight))
  then Ok (map (fun s =>
         tabulate (length weight) (fun k =>
           tabulate H (fun h => tabulate W (fun w =>
             let acc := dot (pixel s h w) (nth k weight []) in
             match bias with
             | Some b => sadd acc (at1 b k)
             | None => acc
             end)))) x)
  else Err RuntimeError.

(** The norm of the channel vector of every pixel of a sample. *)
Definition norm_grid (H W : nat) (s : tensor3 T) : tensor2 T :=
  tabulate H (fun h => tabulate W (fun w => norm2 (pixel s h w))).

(** [feat.norm(dim=1, keepdim=True)]: shape (N, 1, H, W). *)
Definition norm_dim1 (feat : tensor4 T) : tensor4 T :=
  let '(N, C, H, W) := shape4 feat in
  map (fun s => [norm_grid H W s]) feat.

(** [a / b] where [b] has a single channel that is broadcast over the
    channels of [a]. *)
Definition div_bcast_dim1 (a b : tensor4 T) : tensor4 T :=
  zipWith (fun sa sb =>
    map (fun ch => zipWith (zipWith sdiv) ch (hd [] sb)) sa) a b.

End Tensors.

(** ** Stored tensors and modules *)

Section Modules.
Context {T : Type} {ST : Scalar T}.

(** A tensor of any rank, as it sits in a checkpoint: its shape and its
    elements in row-major order. *)
Record ndarray : Type := {
  shape : list nat;
  data : list T
}.

(** [t[:, :, None, None]]: two new axes of size one after the first two
    axes; a tensor with fewer than two axes cannot be indexed this way. *)
Definition index_none_none (t : ndarray) : res ndarray :=
  match shape t with
  | a :: b :: rest => Ok {| shape := a :: b :: 1 :: 1 :: rest; data := data t |}
  | _ => Err IndexError
  end.

(** [nn.Conv2d(in_channels, out_channels, 1)]: the weight has shape
    (out_channels, in_channels, 1, 1); the bias, when there is one, has
    shape (out_channels). *)
Record Conv2d : Type := {
  weight : ndarray;
  bias : option ndarray
}.

Definition state_dict : Type := list (string * ndarray).

(** [needle in hay] on Python strings. *)
Fixpoint contains (needle hay : string) : bool :=
  if String.prefix needle hay then true
  else match hay with
       | EmptyString => false
       | String _ hay' => contains needle hay'
       end.

Fixpoint lookup {V : Type} (key : string) (d : list (string * V)) : option V :=
  match d with
  | [] => None
  | (k, v) :: d' => if String.eqb key k then Some v else lookup key d'
  end.

Definition param_names (m : Conv2d) : list string :=
  "weight"%string :: match bias m with
                     | Some _ => ["bias"%string]
                     | None => []
                     end.

Definition shape_eqb (a b : list nat) : bool :=
  if list_eq_dec Nat.eq_dec a b then true else false.

(** One parameter of [Module.load_state_dict(strict=True)]: the key must
    be present and the stored tensor must have the parameter's shape;
    then [param.copy_(stored)]. *)
Definition load_param (p : ndarray) (key : string) (sd : state_dict) : res ndarray :=
  match lookup key sd with
  | None => Err RuntimeError
  | Some t => if shape_eqb (shape t) (shape p)
              then Ok {| shape := shape p; data := data t |}
              else Err RuntimeError
  end.

(** [module.load_state_dict(sd)] of a [Conv2d]: unexpected keys, missing
    keys and size mismatches are all a RuntimeError. *)
Definition load_state_dict (m : Conv2d) (sd : state_dict) : res Conv2d :=
  if forallb (fun key => existsb (String.eqb key) (param_names m)) (map fst sd)
  then w <- load_param (weight m) "weight" sd ;;
       b <- match bias m with
            | Some b0 => b' <- load_param b0 "bias" sd ;; Ok (Some b')
            | None => Ok None
            end ;;
       Ok {| weight := w; bias := b |}
  else Err RuntimeError.

(** [conv.weight[:, :, 0, 0]] as a matrix. *)
Definition weight_matrix (w : ndarray) : res (tensor2 T) :=
  match shape w with
  | [o; i; 1; 1] => Ok (tabulate o (fun a => firstn i (skipn (a * i) (data w))))
  | _ => Err RuntimeError
  end.

(** [conv(x)] *)
Definition conv_forward (m : Conv2d) (x : tensor4 T) : res (tensor4 T) :=
  w <- weight_matrix (weight m) ;;
  conv2d x w (option_map data (bias m)).

(** The projections of the head: [proj] when [vit], else [q_proj],
    [k_proj], [v_proj] and [c_proj]. *)
Inductive Projs : Type :=
| ViTProj (proj : Conv2d)
| ResNetProjs (q_proj k_proj v_proj c_proj : Conv2d).

Record MaskClipHead : Type := {
  num_classes : nat;
  text_categories : nat;
  text_channels : nat;
  text_embeddings : tensor2 T;
  projs : Projs;
  bg_thresh : T;
  num_vote : Z;
  vote_thresh : list T;
  topk_text : Z;
  cls_thresh : T;
  attn_pooling : bool;
  num_heads : Z;
  training : bool
}.

Definition vit (h : MaskClipHead) : bool :=
  match projs h with
  | ViTProj _ => true
  | ResNetProjs _ _ _ _ => false
  end.

Definition set_projs (h : MaskClipHead) (p : Projs) : MaskClipHead :=
  {| num_classes := num_classes h; text_categories := text_categories h;
     text_channels := text_channels h; text_embeddings := text_embeddings h;
     projs := p; bg_thresh := bg_thresh h; num_vote := num_vote h;
     vote_thresh := vote_thresh h; topk_text := topk_text h;
     cls_thresh := cls_thresh h; attn_pooling := attn_pooling h;
     num_heads := num_heads h; training := training h |}.

Definition set_cls_thresh (h : MaskClipHead) (t : T) : MaskClipHead :=
  {| num_classes := num_classes h; text_categories := text_categories h;
     text_channels := text_channels h; text_embeddings := text_embeddings h;
     projs := projs h; bg_thresh := bg_thresh h; num_vote := num_vote h;
     vote_thresh := vote_thresh h; topk_text := topk_text h;
     cls_thresh := t; attn_pooling := attn_pooling h;
     num_heads := num_heads h; training := training h |}.

(** *** [__init__], lines 39-41: the vote threshold *)

(** The [vote_thresh] argument is a number or a list of numbers. *)
Inductive vote_thresh_arg : Type :=
| ThreshScalar (x : T)
| ThreshList (l : list T).

(** [if not isinstance(vote_thresh, list): vote_thresh = [vote_thresh] * num_vote];
    a list times a non-positive integer is the empty list. *)
Definition init_vote_thresh (vote_thresh : vote_thresh_arg) (num_vote : Z) : list T :=
  match vote_thresh with
  | ThreshList l => l
  | ThreshScalar x => repeat x (Z.to_nat num_vote)
  end.

(** *** [load_visual_projs] *)

(** The file read by [torch.load]: a state dict per projection. *)
Definition artifact : Type := list (string * state_dict).

(** The body of the loop over [attrs]. *)
Definition load_attr (loaded : artifact) (attr : string) (current_attr : Conv2d)
  : res Conv2d :=
  match lookup attr loaded with
  | None => Err KeyError
  | Some sd =>
      sd' <- mapM (fun kv =>
               if contains "weight" (fst kv)
               then t <- index_none_none (snd kv) ;; Ok (fst kv, t)
               else Ok kv) sd ;;
      load_state_dict current_attr sd'
  end.

Definition load_visual_projs (h : MaskClipHead) (loaded : artifact) : res MaskClipHead :=
  match projs h with
  | ViTProj proj =>
      p <- load_attr loaded "proj" proj ;;
      Ok (set_projs h (ViTProj p))
  | ResNetProjs q_proj k_proj v_proj c_proj =>
      q <- load_attr loaded "q_proj" q_proj ;;
      k <- load_attr loaded "k_proj" k_proj ;;
      v <- load_attr loaded "v_proj" v_proj ;;
      c <- load_attr loaded "c_proj" c_proj ;;
      Ok (set_projs h (ResNetProjs q k v c))
  end.

(** What [state_dict()] of a linear layer holds: the weight, then the
    bias when there is one. *)
Definition linear_state (w : ndarray) (b : option ndarray) : state_dict :=
  ("weight"%string, w) :: match b with
                          | Some b1 => [("bias"%string, b1)]
                          | None => []
                          end.

(** The artifact stores projection [attr] with a two-axis weight that
    fits the convolution [m] once two axes of size one are appended. *)
Definition stores_linear (loaded : artifact) (attr : string) (m : Conv2d)
  (w : ndarray) (b : option ndarray) : Prop :=
  lookup attr loaded = Some (linear_state w b) /\
  shape (weight m) = shape w ++ [1; 1] /\
  length (shape w) = 2 /\
  option_map shape b = option_map shape (bias m).

(** The convolution after a successful load of [w] and [b]. *)
Definition loaded_conv (w : ndarray) (b : option ndarray) : Conv2d :=
  {| weight := {| shape := shape w ++ [1; 1]; data := data w |};
     bias := b |}.

(** *** [cls_seg] *)

(** [self.text_embeddings[:, :, None, None]] is a bank of 1x1 filters;
    [conv2d] takes it as the matrix it was made from. *)
Definition cls_seg (h : MaskClipHead) (feat : tensor4 T) : res (tensor4 T) :=
  let feat := div_bcast_dim1 feat (norm_dim1 feat) in
  conv2d feat (text_embeddings h) None.

End Modules.

Arguments ndarray T : clear implicits.
Arguments Conv2d T : clear implicits.
Arguments Projs T : clear implicits.
Arguments MaskClipHead T : clear implicits.
Arguments vote_thresh_arg T : clear implicits.
Arguments state_dict T : clear implicits.
Arguments artifact T : clear implicits.

(** ** The refinement pipeline and the forward pass *)

Section Refine.
Context {T : Type} {ST : Scalar T} {SE : ScalarExp T}.


Definition softmax_vec (v : list T) : list T :=
  let e := map sexp v in
  let z := sum_list e in
  map (fun a => sdiv a z) e.

(** Apply [f] to the channel vector of every pixel of a sample. *)
Definition map_pixels (f : list T -> list T) (s : tensor3 T) : tensor3 T :=
  let '(C, H, W) := shape3 s in
  tabulate C (fun c => tabulate H (fun h => tabulate W (fun w =>
    at1 (f (pixel s h w)) c))).

(** [F.softmax(x, dim=1)] *)
Definition softmax_dim1 (x : tensor4 T) : tensor4 T := map (map_pixels softmax_vec) x.

(** [F.softmax(output*100, dim=1)] *)
Definition sharpen (output : tensor4 T) : tensor4 T :=
  softmax_dim1 (map4 (fun a => smul a (sconst 100)) output).

(** *** Top-k gating, lines 133-141 *)

(** The candidate with the largest score; the earliest one on a tie. *)
Fixpoint argmax (best : nat * T) (l : list (nat * T)) : nat * T :=
  match l with
  | [] => best
  | c :: l' => if sltb (snd best) (snd c) then argmax c l' else argmax best l'
  end.

Fixpoint topk_sel (k : nat) (cands : list (nat * T)) : list nat :=
  match k, cands with
  | S k', c :: cs =>
      let b := argmax c cs in
      fst b :: topk_sel k' (filter (fun d => negb (Nat.eqb (fst d) (fst b))) cands)
  | _, _ => []
  end.

(** The indices returned by [row.topk(k)], largest score first; torch
    raises when [k] exceeds the length of the row. *)
Definition topk (k : nat) (row : list T) : res (list nat) :=
  if Nat.leb k (length row)
  then Ok (topk_sel k (combine (seq 0 (length row)) row))
  else Err RuntimeError.

(** [t[idx]] for a tensor of integer indices [idx] (given flattened):
    the entries select along the FIRST axis of [t]. *)
Definition index0 (t : tensor4 T) (idx : list nat) : res (list (tensor3 T)) :=
  mapM (fun j => match nth_error t j with
                 | Some s => Ok s
                 | None => Err IndexError
                 end) idx.

Definition set_nth {A : Type} (j : nat) (v : A) (l : list A) : list A :=
  firstn j l ++ v :: skipn (S j) l.

(** [t[idx] = vals], again along the first axis. *)
Definition index_put0 (t : tensor4 T) (idx : list nat) (vals : list (tensor3 T))
  : res (tensor4 T) :=
  fold_left (fun acc jv =>
               t' <- acc ;;
               if Nat.ltb (fst jv) (length t')
               then Ok (set_nth (fst jv) (snd jv) t')
               else Err IndexError)
            (combine idx vals) (Ok t).

Definition topk_gate (h : MaskClipHead T) (output : tensor4 T) (cls_token : option (tensor2 T))
  : res (tensor4 T) :=
  match cls_token with
  | None => Err AssertionError
  | Some cls_token =>
      cls_pred <- matmul cls_token (transpose2 (text_embeddings h)) ;;
      selected_cls <- mapM (topk (Z.to_nat (topk_text h))) cls_pred ;;
      let '(N, C, H, W) := shape4 output in
      (* selected_cls[:, :, None, None].expand(-1, -1, H, W), flattened *)
      let selected_cls :=
        flat_map (fun row => flat_map (fun j => repeat j (H * W)) row) selected_cls in
      let zeros := new_full N C H W (sconst (-100)) in
      vals <- index0 output selected_cls ;;
      index_put0 zeros selected_cls vals
  end.

(** *** Confidence gating, lines 142-147 *)

(** [output[mask] = v] for a boolean mask of the shape of [output]. *)
Definition masked_fill (output : tensor4 T) (mask : list (list (list (list bool)))) (v : T)
  : tensor4 T :=
  zipWith (zipWith (zipWith (zipWith (fun x (b : bool) => if b then v else x))))
          output mask.

Definition conf_gate (h : MaskClipHead T) (output : tensor4 T) : res (tensor4 T) :=
  let '(N, C, H, W) := shape4 output in
  let _output := sharpen output in
  if Nat.eqb (N * C * H * W) 0 then Err RuntimeError
  else
    let max_cls_conf := map (map max_list) (flatten_hw _output) in
    let selected_cls := map (map (fun m => sltb m (cls_thresh h))) max_cls_conf in
    (* [:, :, None, None].expand(N, C, H, W) *)
    let mask := map (map (fun b : bool => repeat (repeat b W) H)) selected_cls in
    Ok (masked_fill output mask (sconst (-100))).

Definition gate_stage (h : MaskClipHead T) (output : tensor4 T) (cls_token : option (tensor2 T))
  : res (tensor4 T) :=
  if (0 <? topk_text h)%Z then topk_gate h output cls_token
  else if sltb szero (cls_thresh h) then conf_gate h output
  else Ok output.

(** *** Spatial-affinity voting, lines 149-187 *)

Definition clamp_min (x e : T) : T := if sltb x e then e else x.

(** [F.normalize(k, p=2)]: the default axis is [dim=1]. *)
Definition normalize (k : tensor3 T) : tensor3 T :=
  map (fun m =>
    let denom := tabulate (length (hd [] m)) (fun c => clamp_min (norm2 (col m c)) seps) in
    map (fun r => zipWith sdiv r denom) m) k.

(** One iteration of the loop over [range(self.num_vote)]; [output] has
    shape (N, H*W, C). *)
Definition vote_step (h : MaskClipHead T) (attn : tensor3 T) (output : tensor3 T) (i : nat)
  : res (tensor3 T) :=
  if Nat.ltb 0 (length (vote_thresh h)) then
    vote_output <- bmm attn output ;;
    let '(N, L, C) := shape3 output in
    (* output.max(dim=-1) is evaluated before self.vote_thresh[i] *)
    if Nat.eqb (N * L * C) 0 then Err RuntimeError
    else
      thresh <- match nth_error (vote_thresh h) i with
                | Some t => Ok t
                | None => Err IndexError
                end ;;
      let selected_pos := map (map (fun v => sltb (max_list v) thresh)) output in
      if shape_eqb [length vote_output; length (hd [] vote_output);
                    length (hd [] (hd [] vote_output))] [N; L; C]
      then Ok (zipWith (fun ob vo =>
                 zipWith (fun rb v => if (snd rb : bool) then v else fst rb)
                         (combine (fst ob) (snd ob)) vo)
               (combine output selected_pos) vote_output)
      else Err IndexError
  else bmm attn output.

Definition vote_stage (h : MaskClipHead T) (output : tensor4 T) (output2logits : bool)
  (k : option (tensor3 T)) : res (tensor4 T * bool) :=
  match k with
  | Some k =>
      if (0 <? num_vote h)%Z then
        let output := if output2logits then output else sharpen output in
        let '(N, C, H, W) := shape4 output in
        let output := map transpose2 (flatten_hw output) in
        let k := normalize k in
        attn <- bmm k (map transpose2 k) ;;
        output <- fold_left (fun acc i => o <- acc ;; vote_step h attn o i)
                            (seq 0 (Z.to_nat (num_vote h))) (Ok output) ;;
        if Nat.eqb (length output) N
        then Ok (unflatten_hw H W (map transpose2 output), true)
        else Err RuntimeError
      else Ok (output, output2logits)
  | None => Ok (output, output2logits)
  end.


(** *** Background synthesis, lines 189-199 *)

(** [torch.max(t, dim=1, keepdim=True)[0]]; torch raises when there is
    no channel to take the maximum over. *)
Definition max_dim1 (t : tensor4 T) : res (tensor4 T) :=
  let '(N, C, H, W) := shape4 t in
  if Nat.eqb C 0 then Err RuntimeError
  else Ok (map (fun s => [tabulate H (fun h => tabulate W (fun w =>
             max_list (pixel s h w)))]) t).

(** [torch.cat([a, b], dim=1)] *)
Definition cat_dim1 (a b : tensor4 T) : tensor4 T := zipWith (@app _) a b.

Definition bg_stage (h : MaskClipHead T) (output : tensor4 T) (output2logits : bool)
  : res (tensor4 T) :=
  r <- (if Nat.ltb (num_classes h) (text_categories h) then
          bg <- max_dim1 (map (skipn (num_classes h)) output) ;;
          Ok (Some bg, output)
        else if sltb szero (bg_thresh h) then
          let output := if output2logits then output else sharpen output in
          let '(N, C, H, W) := shape4 output in
          Ok (Some (new_full N 1 H W (bg_thresh h)), output)
        else Ok (None, output)) ;;
  match fst r with
  | Some bg_output => Ok (cat_dim1 bg_output (map (firstn (num_classes h)) (snd r)))
  | None => Ok (snd r)
  end.

(** *** [refine_output], lines 130-201 *)

Definition refine_output (h : MaskClipHead T) (output : tensor4 T) (k : option (tensor3 T))
  (cls_token : option (tensor2 T)) : res (tensor4 T) :=
  let output2logits := false in
  output <- gate_stage h output cls_token ;;
  st <- vote_stage h output output2logits k ;;
  bg_stage h (fst st) (snd st).

End Refine.

Section Forward.
Context {T : Type} {ST : Scalar T} {SE : ScalarExp T}.

(** What [_transform_inputs] hands to the head: a feature map [x]; a
    list of four [[x, q, k, v]] with the query, key and value tensors
    of the last attention layer; a list of two [[x, cls_token]] with
    the class token; or the list of four whose first element is such a
    list of two, [[[x, cls_token], q, k, v]], which the two consecutive
    tests of lines 76-79 unpack one after the other. *)
Inductive features : Type :=
| Single (x : tensor4 T)
| WithQKV (x : tensor4 T) (q k : tensor3 T) (v : tensor4 T)
| WithClsToken (x : tensor4 T) (cls_token : tensor2 T)
| WithClsTokenQKV (x : tensor4 T) (cls_token : tensor2 T)
                  (q k : tensor3 T) (v : tensor4 T).

(** [BaseDecodeHead._transform_inputs] is inherited and
    [F.multi_head_attention_forward] is torch's; both are parameters. *)
Variable Inputs : Type.
Variable _transform_inputs : Inputs -> res features.
Variable multi_head_attention_forward :
  tensor3 T (* query = key = value, (L, N, E) *) -> Z (* num_heads *) ->
  tensor2 T -> tensor2 T -> tensor2 T (* q, k, v projection weights *) ->
  list T (* in_proj_bias *) -> tensor2 T -> list T (* out_proj weight, bias *) ->
  bool (* training *) -> res (tensor3 T).

(** [x.permute(2, 0, 1)] of a tensor of shape (N, C, L). *)
Definition permute_201 (x : tensor3 T) : tensor3 T :=
  tabulate (length (hd [] (hd [] x))) (fun p => map (map (fun ch => at1 ch p)) x).

(** [x.permute(1, 2, 0)] of a tensor of shape (L, N, E). *)
Definition permute_120 (x : tensor3 T) : tensor3 T :=
  tabulate (length (hd [] x)) (fun n =>
    tabulate (length (hd [] (hd [] x))) (fun e => map (fun tok => at2 tok n e) x)).

(** [x.mean(dim=0, keepdim=True)] of a tensor of shape (L, N, C). *)
Definition mean_dim0 (x : tensor3 T) : tensor3 T :=
  [tabulate (length (hd [] x)) (fun n =>
     tabulate (length (hd [] (hd [] x))) (fun c =>
       sdiv (sum_list (map (fun tok => at2 tok n c) x))
            (sconst (Z.of_nat (length x)))))].

(** [torch.flatten(t, start_dim=2).transpose(-2, -1)] *)
Definition flatten_transpose (t : tensor4 T) : tensor3 T :=
  map transpose2 (flatten_hw t).

Definition bias_data (m : Conv2d T) : res (list T) :=
  match bias m with
  | Some b => Ok (data b)
  | None => Err TypeError
  end.

(** The projector, lines 74-117: the embedding feature, the key tensor
    and the class token. *)
Definition project (h : MaskClipHead T) (x : features)
  : res (tensor4 T * option (tensor3 T) * option (tensor2 T)) :=
  match projs h with
  | ViTProj proj =>
      match x with
      | Single x =>
          feat <- conv_forward proj x ;;
          Ok (feat, None, None)
      | WithQKV x q k v =>
          feat <- conv_forward proj v ;;
          Ok (feat, Some k, None)
      | WithClsToken x cls_token =>
          feat <- conv_forward proj x ;;
          (* self.proj(cls_token[:, :, None, None])[:, :, 0, 0] *)
          c <- conv_forward proj (map (map (fun a => [[a]])) cls_token) ;;
          Ok (feat, None, Some (map (map (fun ch => at2 ch 0 0)) c))
      | WithClsTokenQKV x cls_token q k v =>
          feat <- conv_forward proj v ;;
          c <- conv_forward proj (map (map (fun a => [[a]])) cls_token) ;;
          Ok (feat, Some k, Some (map (map (fun ch => at2 ch 0 0)) c))
      end
  | ResNetProjs q_proj k_proj v_proj c_proj =>
      match x with
      | Single x =>
          if attn_pooling h then
            let '(N, C, H, W) := shape4 x in
            let x := permute_201 (flatten_hw x) in
            let x := mean_dim0 x ++ x in
            qw <- weight_matrix (weight q_proj) ;;
            kw <- weight_matrix (weight k_proj) ;;
            vw <- weight_matrix (weight v_proj) ;;
            qb <- bias_data q_proj ;;
            kb <- bias_data k_proj ;;
            vb <- bias_data v_proj ;;
            cw <- weight_matrix (weight c_proj) ;;
            cb <- bias_data c_proj ;;
            x <- multi_head_attention_forward x (num_heads h) qw kw vw
                   (qb ++ kb ++ vb) cw cb (training h) ;;
            Ok (unflatten_hw H W (permute_120 (tl x)), None, None)
          else
            q <- conv_forward q_proj x ;;
            k <- conv_forward k_proj x ;;
            let q := flatten_transpose q in
            let k := flatten_transpose k in
            v <- conv_forward v_proj x ;;
            feat <- conv_forward c_proj v ;;
            Ok (feat, Some k, None)
      | _ =>
          (* a list has no [shape], and is no input for a convolution *)
          if attn_pooling h then Err AttributeError else Err TypeError
      end
  end.

(** [forward], lines 72-122 *)
Definition forward (h : MaskClipHead T) (inputs : Inputs) : res (tensor4 T) :=
  x <- _transform_inputs inputs ;;
  p <- project h x ;;
  let '(feat, k, cls_token) := p in
  output <- cls_seg h feat ;;
  if negb (training h) then refine_output h output k cls_token
  else Ok output.

End Forward.

Arguments features T : clear implicits.

(** ** Construction and (re)initialisation *)

Section Construction.
Context {T : Type} {ST : Scalar T}.

Definition set_text_embeddings (h : MaskClipHead T) (e : tensor2 T) : MaskClipHead T :=
  {| num_classes := num_classes h; text_categories := text_categories h;
     text_channels := text_channels h; text_embeddings := e;
     projs := projs h; bg_thresh := bg_thresh h; num_vote := num_vote h;
     vote_thresh := vote_thresh h; topk_text := topk_text h;
     cls_thresh := cls_thresh h; attn_pooling := attn_pooling h;
     num_heads := num_heads h; training := training h |}.

(** [load_text_embeddings], lines 55-58, for a file that holds a matrix:
    [self.text_embeddings[:, :] = loaded[:, :]] copies into the buffer,
    which keeps its shape; an axis of size one of [loaded] is broadcast,
    any other difference of shape is a RuntimeError. *)
Definition load_text_embeddings (h : MaskClipHead T) (loaded : tensor2 T)
  : res (MaskClipHead T) :=
  let K := length (text_embeddings h) in
  let Ct := length (hd [] (text_embeddings h)) in
  let a := length loaded in
  let b := length (hd [] loaded) in
  if (Nat.eqb a K || Nat.eqb a 1) && (Nat.eqb b Ct || Nat.eqb b 1)
  then Ok (set_text_embeddings h
             (tabulate K (fun i => tabulate Ct (fun j =>
                at2 loaded (if Nat.eqb a 1 then 0 else i)
                           (if Nat.eqb b 1 then 0 else j)))))
  else Err RuntimeError.

(** [nn.Conv2d(cin, cout, 1, bias=with_bias)]; the initial values are
    drawn by torch and given here by [w0] and [b0]. *)
Definition new_conv (cin cout : nat) (with_bias : bool) (w0 b0 : nat -> T) : Conv2d T :=
  {| weight := {| shape := [cout; cin; 1; 1]; data := tabulate (cout * cin) w0 |};
     bias := if with_bias
             then Some {| shape := [cout]; data := tabulate cout b0 |}
             else None |}.

(** The arguments of [__init__]; [in_channels] and [num_classes] are
    those its [**kwargs] hand to the base class. *)
Record init_args : Type := {
  arg_in_channels : nat;
  arg_num_classes : nat;
  arg_text_categories : nat;
  arg_text_channels : nat;
  arg_vit : bool;
  arg_bg_thresh : T;
  arg_num_vote : Z;
  arg_vote_thresh : vote_thresh_arg T;
  arg_topk_text : Z;
  arg_cls_thresh : T;
  arg_attn_pooling : bool;
  arg_num_heads : Z
}.

(** [__init__], lines 14-48.  The two files are given by their
    contents; [randn] stands for the values of [torch.randn] and
    [rand_p attr param] for the initial values of a convolution's
    parameter.  A new module is in training mode. *)
Definition __init__ (a : init_args) (text_embeddings_file : tensor2 T)
  (visual_projs_file : artifact T) (randn : nat -> nat -> T)
  (rand_p : string -> string -> nat -> T) : res (MaskClipHead T) :=
  let cin := arg_in_channels a in
  let conv (attr : string) (cout : nat) (with_bias : bool) :=
    new_conv cin cout with_bias (rand_p attr "weight"%string) (rand_p attr "bias"%string) in
  let h :=
    {| num_classes := arg_num_classes a;
       text_categories := arg_text_categories a;
       text_channels := arg_text_channels a;
       text_embeddings :=
         tabulate (arg_text_categories a) (fun i =>
           tabulate (arg_text_channels a) (randn i));
       projs := if arg_vit a
                then ViTProj (conv "proj"%string (arg_text_channels a) false)
                else ResNetProjs (conv "q_proj"%string cin true)
                                 (conv "k_proj"%string cin true)
                                 (conv "v_proj"%string cin true)
                                 (conv "c_proj"%string (arg_text_channels a) true);
       bg_thresh := arg_bg_thresh a;
       num_vote := arg_num_vote a;
       vote_thresh := init_vote_thresh (arg_vote_thresh a) (arg_num_vote a);
       topk_text := arg_topk_text a;
       cls_thresh := arg_cls_thresh a;
       attn_pooling := arg_attn_pooling a;
       num_heads := arg_num_heads a;
       training := true |} in
  h1 <- load_text_embeddings h text_embeddings_file ;;
  load_visual_projs h1 visual_projs_file.

(** [init_weights], lines 50-53; the base class's [init_weights] is a
    parameter. *)
Definition init_weights (super_init_weights : MaskClipHead T -> res (MaskClipHead T))
  (h : MaskClipHead T) (text_embeddings_file : tensor2 T)
  (visual_projs_file : artifact T) : res (MaskClipHead T) :=
  h0 <- super_init_weights h ;;
  h1 <- load_text_embeddings h0 text_embeddings_file ;;
  load_visual_projs h1 visual_projs_file.

(** The shapes of a head's projection parameters. *)
Definition conv_shapes (m : Conv2d T) : list nat * option (list nat) :=
  (shape (weight m), option_map shape (bias m)).

Definition projs_shapes (p : Projs T) : list (list nat * option (list nat)) :=
  match p with
  | ViTProj proj => [conv_shapes proj]
  | ResNetProjs q k v c => [conv_shapes q; conv_shapes k; conv_shapes v; conv_shapes c]
  end.

(** Two heads that differ at most in the values (not the shapes) of
    their embedding table and projection parameters. *)
Definition same_frame (h1 h2 : MaskClipHead T) : Prop :=
  set_projs (set_text_embeddings h1 []) (ViTProj {| weight := {| shape := []; data := [] |};
                                                    bias := None |}) =
  set_projs (set_text_embeddings h2 []) (ViTProj {| weight := {| shape := []; data := [] |};
                                                    bias := None |}) /\
  length (text_embeddings h1) = length (text_embeddings h2) /\
  length (hd [] (text_embeddings h1)) = length (hd [] (text_embeddings h2)) /\
  projs_shapes (projs h1) = projs_shapes (projs h2).

(** A 1x1 convolution from [cin] to [cout] channels whose stored
    weight has as many elements as its shape says. *)
Definition conv_fits (m : Conv2d T) (cin cout : nat) : Prop :=
  shape (weight m) = [cout; cin; 1; 1] /\
  length (data (weight m)) = cout * cin.

Definition set_votes (h : MaskClipHead T) (nv : Z) (vt : list T) : MaskClipHead T :=
  {| num_classes := num_classes h; text_categories := text_categories h;
     text_channels := text_channels h; text_embeddings := text_embeddings h;
     projs := projs h; bg_thresh := bg_thresh h; num_vote := nv;
     vote_thresh := vt; topk_text := topk_text h;
     cls_thresh := cls_thresh h; attn_pooling := attn_pooling h;
     num_heads := num_heads h; training := training h |}.

End Construction.

Arguments init_args T : clear implicits.

(** ** Concrete heads and inputs used in the examples below *)

Definition proj_1x1 : Conv2d R :=
  {| weight := {| shape := [1; 1; 1; 1]; data := [1%R] |}; bias := None |}.

(** A ViT head over the reals with five text categories of one channel. *)
Definition example_head (nc : nat) (topk : Z) (cls_thr : R) (nv : Z)
  (vt : list R) (train : bool) : MaskClipHead R :=
  {| num_classes := nc; text_categories := 5; text_channels := 1;
     text_embeddings := [[1%R]; [2%R]; [3%R]; [4%R]; [5%R]];
     projs := ViTProj proj_1x1;
     bg_thresh := 0%R; num_vote := nv; vote_thresh := vt;
     topk_text := topk; cls_thresh := cls_thr;
     attn_pooling := false; num_heads := 32; training := train |}.

(** Logits of one sample, five categories, one pixel. *)
Definition logits_1x5 : tensor4 R :=
  [[ [[1%R]]; [[2%R]]; [[3%R]]; [[4%R]]; [[5%R]] ]].

Definition token_1x1 : tensor2 R := [[1%R]].

Definition feat_1x1 : tensor4 R := [[ [[1%R]] ]].

Definition key_1x1 : tensor3 R := [[ [1%R] ]].

(** A stand-in for [F.multi_head_attention_forward] where attention
    pooling is off and it is never called. *)
Definition no_attention (x : tensor3 R) (num_heads : Z) (qw kw vw : tensor2 R)
  (in_bias : list R) (ow : tensor2 R) (ob : list R) (training : bool)
  : res (tensor3 R) := Err RuntimeError.

(** Checkpoints for [proj]: a linear (two-axis) weight, and the same
    weight stored with its two trailing axes of size one. *)
Definition artifact_2d : artifact R :=
  [("proj"%string, [("weight"%string, {| shape := [1; 1]; data := [1%R] |})])].

Definition artifact_4d : artifact R :=
  [("proj"%string, [("weight"%string, {| shape := [1; 1; 1; 1]; data := [1%R] |})])].

(** A head over binary floats with two text categories of two channels,
    and a feature map whose only pixel is the zero vector. *)
Definition float_head : MaskClipHead PrimFloat.float :=
  {| num_classes := 2; text_categories := 2; text_channels := 2;
     text_embeddings := [[sconst 1; sconst 0]; [sconst 0; sconst 1]];
     projs := ViTProj {| weight := {| shape := [2; 2; 1; 1];
                                      data := [sconst 1; sconst 0; sconst 0; sconst 1] |};
                         bias := None |};
     bg_thresh := sconst 0; num_vote := 0; vote_thresh := [];
     topk_text := 2; cls_thresh := sconst 0;
     attn_pooling := false; num_heads := 32; training := false |}.

Definition zero_feat : tensor4 PrimFloat.float := [[ [[sconst 0]]; [[sconst 0]] ]].

(** A float head whose class tokens [[1]] rank the five categories in
    the order 0, 1, 2, 3, 4, and the logits of two samples. *)
Definition float_head_topk : MaskClipHead PrimFloat.float :=
  {| num_classes := 5; text_categories := 5; text_channels := 1;
     text_embeddings := [[sconst 5]; [sconst 4]; [sconst 3]; [sconst 2]; [sconst 1]];
     projs := ViTProj {| weight := {| shape := [1; 1; 1; 1]; data := [sconst 1] |};
                         bias := None |};
     bg_thresh := sconst 0; num_vote := 0; vote_thresh := [];
     topk_text := 2; cls_thresh := sconst 0;
     attn_pooling := false; num_heads := 32; training := false |}.

Definition float_logits_2x5 : tensor4 PrimFloat.float :=
  [[ [[sconst 1]]; [[sconst 2]]; [[sconst 3]]; [[sconst 4]]; [[sconst 5]] ];
   [ [[sconst 6]]; [[sconst 7]]; [[sconst 8]]; [[sconst 9]]; [[sconst 10]] ]].

Definition float_tokens_2 : tensor2 PrimFloat.float := [[sconst 1]; [sconst 1]].

(** A 1x1 convolution with a bias, and a convolutional head over the
    reals with five text categories of one channel. *)
Definition conv_1x1 : Conv2d R :=
  {| weight := {| shape := [1; 1; 1; 1]; data := [1%R] |};
     bias := Some {| shape := [1]; data := [0%R] |} |}.

Definition conv_head (topk nv : Z) (vt : list R) (pooling train : bool)
  : MaskClipHead R :=
  {| num_classes := 5; text_categories := 5; text_channels := 1;
     text_embeddings := [[1%R]; [2%R]; [3%R]; [4%R]; [5%R]];
     projs := ResNetProjs conv_1x1 conv_1x1 conv_1x1 conv_1x1;
     bg_thresh := 0%R; num_vote := nv; vote_thresh := vt;
     topk_text := topk; cls_thresh := 0%R;
     attn_pooling := pooling; num_heads := 32; training := train |}.

(** The ViT head with a background threshold of one half. *)
Definition bg_head : MaskClipHead R :=
  {| num_classes := 5; text_categories := 5; text_channels := 1;
     text_embeddings := [[1%R]; [2%R]; [3%R]; [4%R]; [5%R]];
     projs := ViTProj proj_1x1;
     bg_thresh := (1 / 2)%R; num_vote := 0; vote_thresh := [];
     topk_text := 0; cls_thresh := 0%R;
     attn_pooling := false; num_heads := 32; training := false |}.

(** Arguments of [__init__] for a ViT head, and an embedding file. *)
Definition example_args : init_args R :=
  {| arg_in_channels := 1; arg_num_classes := 5; arg_text_categories := 5;
     arg_text_channels := 1; arg_vit := true; arg_bg_thresh := 0%R;
     arg_num_vote := 2; arg_vote_thresh := ThreshScalar 0%R;
     arg_topk_text := 0; arg_cls_thresh := 0%R;
     arg_attn_pooling := false; arg_num_heads := 32 |}.

Definition embeddings_5x1 : tensor2 R := [[5%R]; [4%R]; [3%R]; [2%R]; [1%R]].

(** A checkpoint whose weight is stored as a vector. *)
Definition artifact_1d : artifact R :=
  [("proj"%string, [("weight"%string, {| shape := [1]; data := [1%R] |})])].

(** A feature map of one pixel with two channels. *)
Definition feat_2ch : tensor4 R := [[ [[1%R]]; [[2%R]] ]].

(** * Properties *)

Unset Implicit Arguments.

(** ** Lists as indexed tables *)

Lemma bind_Ok {A B : Type} (m : res A) (f : A -> res B) (a : A) :
  m = Ok a -> bind m f = f a.
Proof. intros ->. reflexivity. Qed.

Lemma length_tabulate {A : Type} (n : nat) (f : nat -> A) :
  length (tabulate n f) = n.
Proof. unfold tabulate. now rewrite length_map, length_seq. Qed.

Lemma nth_tabulate {A : Type} (n : nat) (f : nat -> A) (i : nat) (d : A) :
  i < n -> nth i (tabulate n f) d = f i.
Proof.
  intros Hi. unfold tabulate.
  rewrite (nth_indep _ d (f 0)) by now rewrite length_map, length_seq.
  rewrite map_nth, seq_nth by assumption. reflexivity.
Qed.

Lemma nth_map_lt {A B : Type} (f : A -> B) (l : list A) (i : nat) (d : A) (d' : B) :
  i < length l -> nth i (map f l) d' = f (nth i l d).
Proof.
  intros Hi. rewrite (nth_indep _ d' (f d)) by now rewrite length_map.
  apply map_nth.
Qed.

Lemma length_zipWith {A B C : Type} (f : A -> B -> C) (a : list A) (b : list B) :
  length (zipWith f a b) = Nat.min (length a) (length b).
Proof. unfold zipWith. now rewrite length_map, length_combine. Qed.

Lemma nth_zipWith_lt {A B C : Type} (f : A -> B -> C) (a : list A) (b : list B)
  (i : nat) (da : A) (db : B) (d : C) :
  i < length a -> i < length b ->
  nth i (zipWith f a b) d = f (nth i a da) (nth i b db).
Proof.
  unfold zipWith. revert b i.
  induction a as [|x a IH]; intros [|y b] [|i] Ha Hb; simpl in *; try lia.
  - reflexivity.
  - apply IH; lia.
Qed.

Lemma nth_repeat_lt {A : Type} (a d : A) (n i : nat) :
  nth i (repeat a n) d = if Nat.ltb i n then a else d.
Proof.
  revert i. induction n as [|n IH]; intros [|i]; simpl; try reflexivity.
  rewrite IH. reflexivity.
Qed.

Lemma hd_nth0 {A : Type} (l : list A) (d : A) : hd d l = nth 0 l d.
Proof. now destruct l. Qed.

Lemma tabulate_nth {A : Type} (l : list A) (d : A) :
  tabulate (length l) (fun i => nth i l d) = l.
Proof.
  apply (nth_ext _ _ d d).
  - apply length_tabulate.
  - intros i Hi. rewrite length_tabulate in Hi.
    now rewrite nth_tabulate by assumption.
Qed.

Lemma Forall_nth_lt {A : Type} (P : A -> Prop) (l : list A) (d : A) (i : nat) :
  Forall P l -> i < length l -> P (nth i l d).
Proof. intros HF Hi. rewrite Forall_forall in HF. apply HF, nth_In, Hi. Qed.

Lemma Forall_of_nth {A : Type} (P : A -> Prop) (l : list A) (d : A) :
  (forall i, i < length l -> P (nth i l d)) -> Forall P l.
Proof.
  intros HP. apply Forall_forall. intros x Hx.
  destruct (In_nth _ _ d Hx) as (i & Hi & <-). now apply HP.
Qed.

(** ** Shapes *)


Section ShapeFacts.
Context {T : Type} {ST : Scalar T}.

Lemma wf2_row (R C : nat) (m : tensor2 T) (i : nat) :
  wf2 R C m -> i < R -> length (nth i m []) = C.
Proof.
  intros [HL HF] Hi.
  apply (Forall_nth_lt (fun r => length r = C) m [] i HF). lia.
Qed.

Lemma wf3_nth (A B C : nat) (t : tensor3 T) (i : nat) :
  wf3 A B C t -> i < A -> wf2 B C (nth i t []).
Proof. intros [HL HF] Hi. apply Forall_nth_lt; [exact HF|lia]. Qed.

Lemma wf4_nth (N C H W : nat) (t : tensor4 T) (n : nat) :
  wf4 N C H W t -> n < N -> wf3 C H W (nth n t []).
Proof. intros [HL HF] Hn. apply Forall_nth_lt; [exact HF|lia]. Qed.

Lemma wf2_intro (R C : nat) (m : tensor2 T) :
  length m = R -> (forall i, i < R -> length (nth i m []) = C) -> wf2 R C m.
Proof.
  intros HL Hrow. split; [exact HL|].
  apply (Forall_of_nth _ _ []). intros i Hi. apply Hrow. lia.
Qed.

Lemma wf3_intro (A B C : nat) (t : tensor3 T) :
  length t = A -> (forall i, i < A -> wf2 B C (nth i t [])) -> wf3 A B C t.
Proof.
  intros HL Hrow. split; [exact HL|].
  apply (Forall_of_nth _ _ []). intros i Hi. apply Hrow. lia.
Qed.

Lemma wf4_intro (N C H W : nat) (t : tensor4 T) :
  length t = N -> (forall n, n < N -> wf3 C H W (nth n t [])) -> wf4 N C H W t.
Proof.
  intros HL Hrow. split; [exact HL|].
  apply (Forall_of_nth _ _ []). intros i Hi. apply Hrow. lia.
Qed.

Lemma shape3_wf (A B C : nat) (t : tensor3 T) :
  wf3 A B C t -> 0 < A -> 0 < B -> shape3 t = (A, B, C).
Proof. intros Hwf HA HB. unfold shape3. rewrite !(hd_nth0 _ []).
  pose proof (wf3_nth _ _ _ _ 0 Hwf HA) as H0. destruct Hwf as [HL _].
  destruct H0 as [HL0 HF0]. rewrite HL, HL0.
  rewrite (Forall_nth_lt (fun r => length r = C) _ [] 0 HF0) by lia. reflexivity.
Qed.

Lemma shape4_wf (N C H W : nat) (t : tensor4 T) :
  wf4 N C H W t -> 0 < N -> 0 < C -> 0 < H -> shape4 t = (N, C, H, W).
Proof. intros Hwf HN HC HH. unfold shape4. rewrite !(hd_nth0 _ []).
  pose proof (wf4_nth _ _ _ _ _ 0 Hwf HN) as H0. destruct Hwf as [HL _].
  pose proof (shape3_wf _ _ _ _ H0 HC HH) as Hs. unfold shape3 in Hs.
  rewrite !(hd_nth0 _ []) in Hs. injection Hs as -> -> ->. now rewrite HL.
Qed.

Lemma at4_pixel (s : tensor3 T) (c h w : nat) :
  c < length s -> at1 (pixel s h w) c = at2 (nth c s []) h w.
Proof.
  intros Hc. unfold at1, pixel.
  now rewrite (nth_map_lt _ _ _ []) by assumption.
Qed.

End ShapeFacts.

(** ** The classifier *)

Section Classifier.
Context {T : Type} {ST : Scalar T}.

Lemma div_bcast_norm_nth (N C H W : nat) (feat : tensor4 T) (n : nat) :
  wf4 N C H W feat -> 0 < N -> 0 < C -> 0 < H -> n < N ->
  nth n (div_bcast_dim1 feat (norm_dim1 feat)) [] =
  map (fun ch => zipWith (zipWith sdiv) ch (norm_grid H W (nth n feat []))) (nth n feat []).
Proof.
  intros Hwf HN HC HH Hn. unfold div_bcast_dim1, norm_dim1.
  rewrite (shape4_wf _ _ _ _ _ Hwf HN HC HH).
  destruct Hwf as [HL _].
  rewrite (nth_zipWith_lt _ _ _ _ [] []) by (rewrite ?length_map; lia).
  rewrite (nth_map_lt _ _ _ []) by lia. reflexivity.
Qed.

Lemma at2_zipWith_div (H W : nat) (ch g : tensor2 T) (h w : nat) :
  wf2 H W ch -> wf2 H W g -> h < H -> w < W ->
  at2 (zipWith (zipWith sdiv) ch g) h w = sdiv (at2 ch h w) (at2 g h w).
Proof.
  intros Hc Hg Hh Hw. unfold at2, at1.
  pose proof (wf2_row _ _ _ h Hc Hh) as Lc.
  pose proof (wf2_row _ _ _ h Hg Hh) as Lg.
  destruct Hc as [Hc _], Hg as [Hg _].
  rewrite (nth_zipWith_lt _ _ _ _ [] []) by lia.
  rewrite (nth_zipWith_lt _ _ _ _ szero szero) by lia. reflexivity.
Qed.

Lemma wf2_zipWith (f : T -> T -> T) (H W : nat) (a b : tensor2 T) :
  wf2 H W a -> wf2 H W b -> wf2 H W (zipWith (zipWith f) a b).
Proof.
  intros Ha Hb. apply wf2_intro.
  - destruct Ha as [Ha _], Hb as [Hb _]. rewrite length_zipWith. lia.
  - intros i Hi.
    pose proof (wf2_row _ _ _ i Ha Hi) as La.
    pose proof (wf2_row _ _ _ i Hb Hi) as Lb.
    destruct Ha as [Ha _], Hb as [Hb _].
    rewrite (nth_zipWith_lt _ _ _ _ [] []) by lia.
    rewrite length_zipWith. lia.
Qed.

Lemma wf2_tabulate (H W : nat) (f : nat -> nat -> T) :
  wf2 H W (tabulate H (fun h => tabulate W (f h))).
Proof.
  apply wf2_intro.
  - apply length_tabulate.
  - intros i Hi. rewrite nth_tabulate by assumption. apply length_tabulate.
Qed.

Lemma wf3_tabulate (C H W : nat) (f : nat -> nat -> nat -> T) :
  wf3 C H W (tabulate C (fun c => tabulate H (fun h => tabulate W (f c h)))).
Proof.
  apply wf3_intro.
  - apply length_tabulate.
  - intros i Hi. rewrite nth_tabulate by assumption. apply wf2_tabulate.
Qed.

Lemma at3_tabulate (C H W : nat) (f : nat -> nat -> nat -> T) (c h w : nat) :
  c < C -> h < H -> w < W ->
  at3 (tabulate C (fun c => tabulate H (fun h => tabulate W (f c h)))) c h w = f c h w.
Proof.
  intros Hc Hh Hw. unfold at3, at2, at1.
  now rewrite !nth_tabulate by assumption.
Qed.

Lemma normalized_sample_wf (C H W : nat) (s : tensor3 T) :
  wf3 C H W s ->
  wf3 C H W (map (fun ch => zipWith (zipWith sdiv) ch (norm_grid H W s)) s).
Proof.
  intros Hs. apply wf3_intro.
  - destruct Hs as [Hs _]. now rewrite length_map.
  - intros c Hc. pose proof (wf3_nth _ _ _ _ c Hs Hc) as Hch.
    destruct Hs as [Hs _].
    rewrite (nth_map_lt _ _ _ []) by lia.
    apply wf2_zipWith; [exact Hch | apply wf2_tabulate].
Qed.

Lemma normalized_sample_pixel (C H W : nat) (s : tensor3 T) (h w : nat) :
  wf3 C H W s -> h < H -> w < W ->
  pixel (map (fun ch => zipWith (zipWith sdiv) ch (norm_grid H W s)) s) h w =
  map (fun x => sdiv x (norm2 (pixel s h w))) (pixel s h w).
Proof.
  intros Hs Hh Hw. unfold pixel. rewrite !map_map.
  apply map_ext_in. intros ch Hin.
  assert (Hch : wf2 H W ch).
  { destruct Hs as [_ HF]. rewrite Forall_forall in HF. now apply HF. }
  rewrite (at2_zipWith_div H W) by (try assumption; apply wf2_tabulate).
  f_equal. unfold norm_grid, at2, at1. now rewrite !nth_tabulate by assumption.
Qed.

(** The classifier, pixel by pixel: the logit of category [k] is the
    inner product of the pixel's channel vector, each component divided
    by the vector's norm, with row [k] of the embedding table. *)
Lemma cls_seg_pointwise (h : MaskClipHead T) (feat : tensor4 T) (N H W : nat) :
  wf4 N (text_channels h) H W feat ->
  wf2 (text_categories h) (text_channels h) (text_embeddings h) ->
  0 < N -> 0 < text_channels h -> 0 < H -> 0 < text_categories h ->
  exists out,
    cls_seg h feat = Ok out /\
    wf4 N (text_categories h) H W out /\
    forall n k hh w, n < N -> k < text_categories h -> hh < H -> w < W ->
      at4 out n k hh w =
      dot (map (fun x => sdiv x (norm2 (pixel (nth n feat []) hh w)))
               (pixel (nth n feat []) hh w))
          (nth k (text_embeddings h) []).
Proof.
  intros Hwf Hemb HN HC HH HK.
  set (feat' := div_bcast_dim1 feat (norm_dim1 feat)).
  assert (Hlen : length feat' = N).
  { unfold feat', div_bcast_dim1, norm_dim1.
    rewrite (shape4_wf _ _ _ _ _ Hwf HN HC HH).
    destruct Hwf as [HL _].
    rewrite length_zipWith, length_map. lia. }
  assert (Hwf' : wf4 N (text_channels h) H W feat').
  { apply wf4_intro; [exact Hlen|]. intros n Hn. unfold feat'.
    rewrite (div_bcast_norm_nth _ _ _ _ _ _ Hwf HN HC HH Hn).
    apply normalized_sample_wf. now apply (wf4_nth _ _ _ _ _ _ Hwf). }
  unfold cls_seg. fold feat'. unfold conv2d.
  rewrite (shape4_wf _ _ _ _ _ Hwf' HN HC HH).
  rewrite (hd_nth0 _ []), (wf2_row _ _ _ 0 Hemb HK), Nat.eqb_refl.
  destruct Hemb as [HKlen _].
  eexists. split; [reflexivity|]. split.
  - apply wf4_intro; [now rewrite length_map|].
    intros n Hn. rewrite (nth_map_lt _ _ _ []) by lia.
    rewrite HKlen. apply (wf3_tabulate _ _ _ (fun k hh w => _)).
  - intros n k hh w Hn Hk Hhh Hw. unfold at4.
    rewrite (nth_map_lt _ _ _ []) by lia. rewrite HKlen.
    rewrite (at3_tabulate _ _ _ (fun k hh w => _)) by assumption.
    unfold feat'. rewrite (div_bcast_norm_nth _ _ _ _ _ _ Hwf HN HC HH Hn).
    rewrite (normalized_sample_pixel (text_channels h) H W); try assumption.
    + reflexivity.
    + now apply (wf4_nth _ _ _ _ _ _ Hwf).
Qed.

End Classifier.

(** ** Division by a zero norm, in binary floating point *)

Lemma float_add_mul_nan (x y : PrimFloat.float) :
  PrimFloat.add x (PrimFloat.mul PrimFloat.nan y) = PrimFloat.nan.
Proof.
  apply FloatAxioms.Prim2SF_inj.
  rewrite FloatAxioms.add_spec, FloatAxioms.mul_spec.
  change (FloatOps.Prim2SF PrimFloat.nan) with SpecFloat.S754_nan.
  unfold FloatAxioms.SF64add, FloatAxioms.SF64mul, SpecFloat.SFadd, SpecFloat.SFmul.
  destruct (FloatOps.Prim2SF x); reflexivity.
Qed.

Lemma float_sum_nan_products (l : list PrimFloat.float) (acc : PrimFloat.float) :
  l <> [] ->
  Forall (fun p => exists y, p = PrimFloat.mul PrimFloat.nan y) l ->
  fold_left PrimFloat.add l acc = PrimFloat.nan.
Proof.
  revert acc. induction l as [|p l IH]; intros acc Hne HF; [congruence|].
  inversion HF as [|? ? [y ->] HF']; subst. simpl.
  rewrite float_add_mul_nan.
  destruct l as [|q l]; [reflexivity|].
  apply IH; [discriminate|assumption].
Qed.

Lemma float_norm2_zeros (C : nat) :
  norm2 (repeat (szero : PrimFloat.float) C) = szero.
Proof.
  unfold norm2, sum_list.
  assert (Hs : forall n, fold_left sadd
             (map (fun x : PrimFloat.float => smul x x) (repeat szero n)) szero = szero).
  { induction n as [|n IH]; [reflexivity|]. simpl.
    change (sadd szero (smul szero szero)) with (szero : PrimFloat.float).
    exact IH. }
  rewrite Hs. reflexivity.
Qed.

Lemma float_dot_nan (C : nat) (row : list PrimFloat.float) :
  0 < C -> 0 < length row ->
  dot (repeat PrimFloat.nan C) row = PrimFloat.nan.
Proof.
  intros HC Hrow. unfold dot, sum_list, zipWith.
  apply float_sum_nan_products.
  - destruct C as [|C]; [lia|]. destruct row as [|y row]; [simpl in Hrow; lia|].
    discriminate.
  - apply Forall_forall. intros p Hp. apply in_map_iff in Hp.
    destruct Hp as ([a b] & <- & Hin). simpl.
    apply in_combine_l in Hin. apply repeat_spec in Hin. subst a.
    now exists b.
Qed.

Lemma map_const_repeat {A B : Type} (f : A -> B) (l : list A) (d : A) (z : B) :
  (forall i, i < length l -> f (nth i l d) = z) ->
  map f l = repeat z (length l).
Proof.
  intros Hz. apply (nth_ext _ _ z z).
  - now rewrite length_map, repeat_length.
  - intros i Hi. rewrite length_map in Hi.
    rewrite (nth_map_lt _ _ _ d) by assumption.
    rewrite nth_repeat_lt. rewrite (proj2 (Nat.ltb_lt _ _) Hi). now apply Hz.
Qed.

(** ** The sharpened softmax *)

Section Sharpen.
Context {T : Type} {ST : Scalar T} {SE : ScalarExp T}.

Lemma wf3_map3 {U : Type} (g : T -> U) (C H W : nat) (s : tensor3 T) :
  wf3 C H W s -> wf3 C H W (map (map (map g)) s).
Proof.
  intros Hs. apply wf3_intro.
  - destruct Hs as [Hs _]. now rewrite length_map.
  - intros c Hc. pose proof (wf3_nth _ _ _ _ c Hs Hc) as Hch.
    destruct Hs as [Hs _]. rewrite (nth_map_lt _ _ _ []) by lia.
    apply wf2_intro.
    + destruct Hch as [Hch _]. now rewrite length_map.
    + intros i Hi. pose proof (wf2_row _ _ _ i Hch Hi) as Hr.
      destruct Hch as [Hch _]. rewrite (nth_map_lt _ _ _ []) by lia.
      now rewrite length_map.
Qed.

Lemma wf4_map4 {U : Type} (g : T -> U) (N C H W : nat) (t : tensor4 T) :
  wf4 N C H W t -> wf4 N C H W (map4 g t).
Proof.
  intros Ht. unfold map4. apply wf4_intro.
  - destruct Ht as [Ht _]. now rewrite length_map.
  - intros n Hn. pose proof (wf4_nth _ _ _ _ _ n Ht Hn) as Hs.
    destruct Ht as [Ht _]. rewrite (nth_map_lt _ _ _ []) by lia.
    now apply wf3_map3.
Qed.

Lemma pixel_map3 (g : T -> T) (C H W : nat) (s : tensor3 T) (h w : nat) :
  wf3 C H W s -> h < H -> w < W ->
  pixel (map (map (map g)) s) h w = map g (pixel s h w).
Proof.
  intros Hs Hh Hw. unfold pixel. rewrite !map_map.
  apply map_ext_in. intros ch Hin.
  assert (Hch : wf2 H W ch).
  { destruct Hs as [_ HF]. rewrite Forall_forall in HF. now apply HF. }
  pose proof (wf2_row _ _ _ h Hch Hh) as Hr. destruct Hch as [Hch _].
  unfold at2, at1.
  rewrite (nth_map_lt _ _ _ []) by lia.
  now rewrite (nth_map_lt _ _ _ szero) by lia.
Qed.

Lemma length_pixel (s : tensor3 T) (h w : nat) : length (pixel s h w) = length s.
Proof. unfold pixel. apply length_map. Qed.

Lemma length_softmax_vec (v : list T) : length (softmax_vec v) = length v.
Proof. unfold softmax_vec. now rewrite !length_map. Qed.

Lemma map_pixels_wf (f : list T -> list T) (C H W : nat) (s : tensor3 T) :
  wf3 C H W s -> 0 < C -> 0 < H ->
  map_pixels f s =
  tabulate C (fun c => tabulate H (fun h => tabulate W (fun w =>
    at1 (f (pixel s h w)) c))).
Proof.
  intros Hs HC HH. unfold map_pixels. now rewrite (shape3_wf _ _ _ _ Hs HC HH).
Qed.

Lemma sharpen_nth (N C H W : nat) (out : tensor4 T) (n : nat) :
  wf4 N C H W out -> 0 < C -> 0 < H -> n < N ->
  nth n (sharpen out) [] =
  tabulate C (fun c => tabulate H (fun h => tabulate W (fun w =>
    at1 (softmax_vec (map (fun a => smul a (sconst 100)) (pixel (nth n out []) h w))) c))).
Proof.
  intros Hout HC HH Hn. unfold sharpen, softmax_dim1, map4.
  pose proof (wf4_nth _ _ _ _ _ n Hout Hn) as Hs. destruct Hout as [HL _].
  rewrite (nth_map_lt _ _ _ []) by (rewrite length_map; lia).
  rewrite (nth_map_lt _ _ _ []) by lia.
  rewrite (map_pixels_wf _ C H W) by (try assumption; now apply wf3_map3).
  unfold tabulate. apply map_ext_in. intros c Hc.
  apply map_ext_in. intros h Hh. apply map_ext_in. intros w Hw.
  apply in_seq in Hh, Hw.
  rewrite (pixel_map3 _ C H W) by (try assumption; lia). reflexivity.
Qed.

Lemma length_sharpen (out : tensor4 T) : length (sharpen out) = length out.
Proof. unfold sharpen, softmax_dim1, map4. now rewrite !length_map. Qed.

Lemma sharpen_wf (N C H W : nat) (out : tensor4 T) :
  wf4 N C H W out -> 0 < C -> 0 < H -> wf4 N C H W (sharpen out).
Proof.
  intros Hout HC HH. apply wf4_intro.
  - rewrite length_sharpen. now destruct Hout.
  - intros n Hn. rewrite (sharpen_nth N C H W) by assumption.
    apply (wf3_tabulate _ _ _ (fun c h w => _)).
Qed.

Lemma at4_sharpen (N C H W : nat) (out : tensor4 T) (n c h w : nat) :
  wf4 N C H W out -> n < N -> c < C -> h < H -> w < W ->
  at4 (sharpen out) n c h w =
  at1 (softmax_vec (map (fun a => smul a (sconst 100)) (pixel (nth n out []) h w))) c.
Proof.
  intros Hout Hn Hc Hh Hw. unfold at4.
  rewrite (sharpen_nth N C H W) by (try assumption; lia).
  now rewrite (at3_tabulate _ _ _ (fun c h w => _)) by assumption.
Qed.

End Sharpen.

(** ** Confidence gating *)

Section ConfGate.
Context {T : Type} {ST : Scalar T} {SE : ScalarExp T}.

Lemma masked_fill_spec (N C H W : nat) (out : tensor4 T)
  (mask : list (list (list (list bool)))) (v : T) :
  wf4 N C H W out -> wf4 N C H W mask ->
  wf4 N C H W (masked_fill out mask v) /\
  forall n c h w, n < N -> c < C -> h < H -> w < W ->
    at4 (masked_fill out mask v) n c h w =
    if nth w (nth h (nth c (nth n mask []) []) []) false then v
    else at4 out n c h w.
Proof.
  intros Ho Hm. unfold masked_fill.
  assert (L4 : forall n, n < N ->
            nth n (zipWith (zipWith (zipWith (zipWith
                     (fun x (b : bool) => if b then v else x)))) out mask) [] =
            zipWith (zipWith (zipWith (fun x (b : bool) => if b then v else x)))
                    (nth n out []) (nth n mask [])).
  { intros n Hn. destruct Ho as [Ho _], Hm as [Hm _].
    apply nth_zipWith_lt; lia. }
  assert (L3 : forall n c, n < N -> c < C ->
            nth c (zipWith (zipWith (zipWith (fun x (b : bool) => if b then v else x)))
                           (nth n out []) (nth n mask [])) [] =
            zipWith (zipWith (fun x (b : bool) => if b then v else x))
                    (nth c (nth n out []) []) (nth c (nth n mask []) [])).
  { intros n c Hn Hc.
    destruct (wf4_nth _ _ _ _ _ n Ho Hn) as [Ho' _].
    destruct (wf4_nth _ _ _ _ _ n Hm Hn) as [Hm' _].
    apply nth_zipWith_lt; lia. }
  assert (L2 : forall n c h, n < N -> c < C -> h < H ->
            nth h (zipWith (zipWith (fun x (b : bool) => if b then v else x))
                           (nth c (nth n out []) []) (nth c (nth n mask []) [])) [] =
            zipWith (fun x (b : bool) => if b then v else x)
                    (nth h (nth c (nth n out []) []) [])
                    (nth h (nth c (nth n mask []) []) [])).
  { intros n c h Hn Hc Hh.
    destruct (wf3_nth _ _ _ _ c (wf4_nth _ _ _ _ _ n Ho Hn) Hc) as [Ho' _].
    destruct (wf3_nth _ _ _ _ c (wf4_nth _ _ _ _ _ n Hm Hn) Hc) as [Hm' _].
    apply nth_zipWith_lt; lia. }
  split.
  - apply wf4_intro.
    { destruct Ho as [Ho _], Hm as [Hm _]. rewrite length_zipWith. lia. }
    intros n Hn. rewrite L4 by assumption. apply wf3_intro.
    { destruct (wf4_nth _ _ _ _ _ n Ho Hn) as [Ho' _].
      destruct (wf4_nth _ _ _ _ _ n Hm Hn) as [Hm' _].
      rewrite length_zipWith. lia. }
    intros c Hc. rewrite L3 by assumption. apply wf2_intro.
    { destruct (wf3_nth _ _ _ _ c (wf4_nth _ _ _ _ _ n Ho Hn) Hc) as [Ho' _].
      destruct (wf3_nth _ _ _ _ c (wf4_nth _ _ _ _ _ n Hm Hn) Hc) as [Hm' _].
      rewrite length_zipWith. lia. }
    intros h Hh. rewrite L2 by assumption. rewrite length_zipWith.
    pose proof (wf2_row _ _ _ h (wf3_nth _ _ _ _ c (wf4_nth _ _ _ _ _ n Ho Hn) Hc) Hh).
    pose proof (wf2_row _ _ _ h (wf3_nth _ _ _ _ c (wf4_nth _ _ _ _ _ n Hm Hn) Hc) Hh).
    lia.
  - intros n c h w Hn Hc Hh Hw. unfold at4, at3, at2, at1.
    rewrite L4, L3, L2 by assumption.
    pose proof (wf2_row _ _ _ h (wf3_nth _ _ _ _ c (wf4_nth _ _ _ _ _ n Ho Hn) Hc) Hh).
    pose proof (wf2_row _ _ _ h (wf3_nth _ _ _ _ c (wf4_nth _ _ _ _ _ n Hm Hn) Hc) Hh).
    rewrite (nth_zipWith_lt _ _ _ _ szero false) by lia. reflexivity.
Qed.

End ConfGate.

Section ConfGateSpec.
Context {T : Type} {ST : Scalar T} {SE : ScalarExp T}.

Lemma shape_product_pos (N C H W : nat) :
  0 < N -> 0 < C -> 0 < H -> 0 < W -> Nat.eqb (N * C * H * W) 0 = false.
Proof.
  intros HN HC HH HW. apply Nat.eqb_neq.
  destruct N, C, H, W; simpl; lia.
Qed.

Lemma conf_mask_fused (thr : T) (H W : nat) (x : tensor4 T) :
  map (map (fun b : bool => repeat (repeat b W) H))
      (map (map (fun m => sltb m thr)) (map (map max_list) (flatten_hw x))) =
  map (map (fun ch => repeat (repeat (sltb (max_list (concat ch)) thr) W) H)) x.
Proof.
  unfold flatten_hw. rewrite !map_map. apply map_ext. intros s.
  rewrite !map_map. reflexivity.
Qed.

Lemma wf2_repeat {U : Type} (H W : nat) (b : U) : wf2 H W (repeat (repeat b W) H).
Proof.
  split; [apply repeat_length|].
  apply Forall_forall. intros r Hr. apply repeat_spec in Hr. subst r.
  apply repeat_length.
Qed.

(** Confidence gating, channel by channel. *)
Lemma conf_gate_spec (h : MaskClipHead T) (out : tensor4 T) (N C H W : nat) :
  wf4 N C H W out -> 0 < N -> 0 < C -> 0 < H -> 0 < W ->
  exists out',
    conf_gate h out = Ok out' /\
    wf4 N C H W out' /\
    forall n c, n < N -> c < C ->
      let conf := max_list (concat (nth c (nth n (sharpen out) []) [])) in
      forall hh w, hh < H -> w < W ->
        at4 out' n c hh w =
        if sltb conf (cls_thresh h) then sconst (-100) else at4 out n c hh w.
Proof.
  intros Hout HN HC HH HW. unfold conf_gate.
  rewrite (shape4_wf _ _ _ _ _ Hout HN HC HH).
  rewrite shape_product_pos by assumption.
  rewrite conf_mask_fused.
  pose proof (sharpen_wf N C H W out Hout HC HH) as Hsh.
  set (mask := map (map (fun ch => repeat (repeat
                 (sltb (max_list (concat ch)) (cls_thresh h)) W) H)) (sharpen out)).
  assert (Hmn : forall n, n < N ->
            nth n mask [] =
            map (fun ch => repeat (repeat
                   (sltb (max_list (concat ch)) (cls_thresh h)) W) H)
                (nth n (sharpen out) [])).
  { intros n Hn. unfold mask. destruct Hsh as [Hsh _].
    now rewrite (nth_map_lt _ _ _ []) by lia. }
  assert (Hmc : forall n c, n < N -> c < C ->
            nth c (nth n mask []) [] =
            repeat (repeat (sltb (max_list (concat (nth c (nth n (sharpen out) []) [])))
                                 (cls_thresh h)) W) H).
  { intros n c Hn Hc. rewrite Hmn by assumption.
    destruct (wf4_nth _ _ _ _ _ n Hsh Hn) as [Hs _].
    now rewrite (nth_map_lt _ _ _ []) by lia. }
  assert (Hmask : wf4 N C H W mask).
  { apply wf4_intro.
    - unfold mask. rewrite length_map. now destruct Hsh.
    - intros n Hn. apply wf3_intro.
      + rewrite Hmn by assumption. rewrite length_map.
        now destruct (wf4_nth _ _ _ _ _ n Hsh Hn).
      + intros c Hc. rewrite Hmc by assumption. apply wf2_repeat. }
  destruct (masked_fill_spec N C H W out mask (sconst (-100)) Hout Hmask) as [Hwf Hpt].
  eexists. split; [reflexivity|]. split; [exact Hwf|].
  intros n c Hn Hc. cbv zeta. intros hh w Hhh Hw.
  rewrite Hpt by assumption. rewrite Hmc by assumption.
  rewrite nth_repeat_lt, (proj2 (Nat.ltb_lt _ _) Hhh).
  rewrite nth_repeat_lt, (proj2 (Nat.ltb_lt _ _) Hw).
  reflexivity.
Qed.

End ConfGateSpec.

(** ** Background synthesis *)

Section Background.
Context {T : Type} {ST : Scalar T} {SE : ScalarExp T}.







End Background.

(** ** The weight loader *)

Section Loader.
Context {T : Type}.

Lemma reshape_keeps_weight (sd sd' : state_dict T) (w : ndarray T) :
  mapM (fun kv : string * ndarray T =>
          if contains "weight" (fst kv)
          then t <- index_none_none (snd kv) ;; Ok (fst kv, t)
          else Ok kv) sd = Ok sd' ->
  lookup "weight" sd = Some w ->
  exists w', lookup "weight" sd' = Some w' /\
             length (shape w') = length (shape w) + 2.
Proof.
  revert sd'. induction sd as [|[key t] sd IH]; intros sd' HM HL; [discriminate|].
  cbn [mapM lookup fst snd] in HM, HL.
  destruct (String.eqb "weight" key) eqn:Hkey.
  - apply String.eqb_eq in Hkey. subst key. injection HL as ->.
    change (contains "weight" "weight") with true in HM. cbv iota in HM.
    unfold index_none_none in HM.
    destruct (shape w) as [|a [|b rest]] eqn:Hsh; try discriminate.
    cbn [bind] in HM.
    destruct (mapM _ sd) as [tl'|e]; [|discriminate].
    cbn [bind] in HM. injection HM as <-. cbn [lookup].
    rewrite String.eqb_refl.
    eexists. split; [reflexivity|]. cbn [shape length]. lia.
  - destruct (contains "weight" key) eqn:Hc.
    + destruct (index_none_none t) as [t'|e]; [|discriminate]. cbn [bind] in HM.
      destruct (mapM _ sd) as [tl'|e] eqn:HM'; [|discriminate].
      cbn [bind] in HM. injection HM as <-. cbn [lookup]. rewrite Hkey.
      now apply IH.
    + destruct (mapM _ sd) as [tl'|e] eqn:HM'; [|discriminate].
      cbn [bind] in HM. injection HM as <-. cbn [lookup]. rewrite Hkey.
      now apply IH.
Qed.

Lemma shape_eqb_refl (s : list nat) : shape_eqb s s = true.
Proof. unfold shape_eqb. now destruct (list_eq_dec Nat.eq_dec s s). Qed.

Lemma shape_eqb_length (a b : list nat) :
  length a <> length b -> shape_eqb a b = false.
Proof.
  intros Hne. unfold shape_eqb.
  destruct (list_eq_dec Nat.eq_dec a b) as [->|]; [contradiction|reflexivity].
Qed.

(** A weight stored with four axes gets two more and is then refused by
    [load_state_dict]. *)
Lemma load_attr_4d_rejected (loaded : artifact T) (attr : string) (m : Conv2d T)
  (sd : state_dict T) (w : ndarray T) :
  lookup attr loaded = Some sd ->
  lookup "weight" sd = Some w ->
  length (shape w) = 4 ->
  length (shape (weight m)) = 4 ->
  exists e, load_attr loaded attr m = Err e.
Proof.
  intros Hsd Hw H4 Hm. unfold load_attr. rewrite Hsd.
  destruct (mapM _ sd) as [sd'|e] eqn:HM; [|simpl; eauto].
  destruct (reshape_keeps_weight _ _ _ HM Hw) as (w' & Hw' & Hlen).
  simpl. unfold load_state_dict.
  destruct (forallb _ _); [|eauto].
  unfold load_param at 1. rewrite Hw'.
  rewrite shape_eqb_length by lia. simpl. eauto.
Qed.

(** A projection stored the way [state_dict()] of a linear layer writes
    it, with a two-axis weight, loads. *)
Lemma load_attr_linear (loaded : artifact T) (attr : string) (m : Conv2d T)
  (w : ndarray T) (b : option (ndarray T)) :
  stores_linear loaded attr m w b ->
  load_attr loaded attr m = Ok (loaded_conv w b).
Proof.
  intros (Hsd & Hshape & Hrank & Hbias). unfold load_attr. rewrite Hsd.
  unfold linear_state, loaded_conv.
  destruct w as [wsh wd]. simpl in *.
  destruct wsh as [|o [|i [|? ?]]]; simpl in Hrank; try lia. clear Hrank.
  simpl in Hshape.
  destruct b as [[bsh bd]|]; destruct (bias m) as [[msh md]|] eqn:Hmb;
    simpl in Hbias; try discriminate.
  - injection Hbias as ->. cbn.
    unfold load_state_dict, param_names. rewrite Hmb. cbn.
    unfold load_param. cbn. rewrite Hshape, !shape_eqb_refl. reflexivity.
  - cbn. unfold load_state_dict, param_names. rewrite Hmb. cbn.
    unfold load_param. cbn. rewrite Hshape, shape_eqb_refl. reflexivity.
Qed.

End Loader.

(** ** Top-k selection and indexing along the first axis *)

Section TopK.
Context {T : Type} {ST : Scalar T}.

Lemma argmax_In (best : nat * T) (l : list (nat * T)) :
  In (argmax best l) (best :: l).
Proof.
  revert best. induction l as [|c l IH]; intros best; simpl; [now left|].
  destruct (sltb (snd best) (snd c)).
  - right. apply IH.
  - destruct (IH best) as [H|H]; [now left|right; now right].
Qed.

(** The two indices picked from candidates with distinct indices are
    distinct. *)
Lemma topk_sel_two_distinct (c1 c2 : nat * T) (cs : list (nat * T)) :
  fst c1 <> fst c2 ->
  exists i1 i2, topk_sel 2 (c1 :: c2 :: cs) = [i1; i2] /\ i1 <> i2.
Proof.
  intros Hne. cbn [topk_sel].
  set (b := argmax c1 (c2 :: cs)).
  set (rest := filter (fun d => negb (Nat.eqb (fst d) (fst b))) (c1 :: c2 :: cs)).
  assert (Hrest : rest <> []).
  { destruct (Nat.eq_dec (fst c1) (fst b)) as [E|E].
    - assert (Hin : In c2 rest).
      { apply filter_In. split; [right; now left|].
        apply Bool.negb_true_iff, Nat.eqb_neq. congruence. }
      intros Hnil. rewrite Hnil in Hin. exact Hin.
    - assert (Hin : In c1 rest).
      { apply filter_In. split; [now left|].
        now apply Bool.negb_true_iff, Nat.eqb_neq. }
      intros Hnil. rewrite Hnil in Hin. exact Hin. }
  destruct rest as [|c' cs'] eqn:Hr; [congruence|].
  exists (fst b), (fst (argmax c' cs')). split; [reflexivity|].
  pose proof (argmax_In c' cs') as Hin. rewrite <- Hr in Hin.
  apply filter_In in Hin. destruct Hin as [_ Hin].
  apply Bool.negb_true_iff, Nat.eqb_neq in Hin. congruence.
Qed.

Lemma index0_out_of_range (t : tensor4 T) (idx : list nat) (j : nat) :
  In j idx -> length t <= j -> index0 t idx = Err IndexError.
Proof.
  intros Hin Hj. unfold index0.
  induction idx as [|x idx IH]; [contradiction|]. cbn [mapM].
  destruct (nth_error t x) as [s|] eqn:Hx; [|reflexivity].
  cbn [bind]. destruct Hin as [->|Hin].
  - apply nth_error_None in Hj. congruence.
  - now rewrite IH.
Qed.

Lemma length_transpose2 (m : tensor2 T) :
  length (transpose2 m) = length (hd [] m).
Proof. unfold transpose2. apply length_tabulate. Qed.

Lemma hd_transpose2 (m : tensor2 T) :
  0 < length (hd [] m) -> length (hd [] (transpose2 m)) = length m.
Proof.
  intros Hpos. unfold transpose2.
  rewrite (hd_nth0 _ []), nth_tabulate by assumption.
  unfold col. apply length_map.
Qed.

(** With a batch of one sample, two selected categories and five text
    categories, top-k gating indexes the batch axis out of range. *)
Lemma topk_gate_batch_of_one (h : MaskClipHead T) (out : tensor4 T)
  (tok : tensor2 T) (H W : nat) :
  topk_text h = 2%Z ->
  wf2 5 (text_channels h) (text_embeddings h) -> 0 < text_channels h ->
  wf4 1 5 H W out -> wf2 1 (text_channels h) tok -> 0 < H -> 0 < W ->
  topk_gate h out (Some tok) = Err IndexError.
Proof.
  intros Hk Hemb HC Hout Htok HH HW. unfold topk_gate, matmul.
  assert (Hhd : length (hd [] (text_embeddings h)) = text_channels h).
  { rewrite (hd_nth0 _ []). apply (wf2_row _ _ _ 0 Hemb). lia. }
  rewrite length_transpose2, Hhd.
  rewrite (hd_nth0 _ []), (wf2_row _ _ _ 0 Htok) by lia.
  rewrite Nat.eqb_refl. cbn [bind].
  rewrite hd_transpose2 by lia.
  destruct Hemb as [HembL _]. rewrite HembL.
  destruct Htok as [HtokL _].
  destruct tok as [|r [|? ?]]; simpl in HtokL; try lia. clear HtokL.
  cbn [map mapM]. rewrite Hk. change (Z.to_nat 2) with 2.
  unfold topk. rewrite length_tabulate. cbn [Nat.leb bind].
  set (row := tabulate 5 (fun j => dot r (col (transpose2 (text_embeddings h)) j))).
  assert (Hrow : exists a b c d e, row = [a; b; c; d; e]).
  { unfold row, tabulate. cbn [seq map]. eauto 6. }
  destruct Hrow as (a & b & c & d & e & ->).
  cbn [length seq combine].
  destruct (topk_sel_two_distinct (0, a) (1, b) [(2, c); (3, d); (4, e)])
    as (i1 & i2 & -> & Hne); [cbn; lia|].
  rewrite (shape4_wf _ _ _ _ _ Hout) by lia.
  cbn [flat_map]. rewrite app_nil_r.
  assert (HHW : exists n, H * W = S n).
  { destruct H, W; try lia. simpl. eauto. }
  destruct HHW as [n HHW]. rewrite HHW.
  destruct Hout as [HoutL _].
  destruct (Nat.eq_dec i1 0) as [E|E].
  - rewrite (index0_out_of_range out _ i2); [reflexivity| |lia].
    apply in_or_app. right. simpl. now left.
  - rewrite (index0_out_of_range out _ i1); [reflexivity| |lia].
    apply in_or_app. left. simpl. now left.
Qed.

End TopK.

(** ** Matrix products, transposition and reshaping *)

Section Matrices.
Context {T : Type} {ST : Scalar T}.

Lemma tabulate_ext {A : Type} (n : nat) (f g : nat -> A) :
  (forall i, i < n -> f i = g i) -> tabulate n f = tabulate n g.
Proof.
  intros Hfg. unfold tabulate. apply map_ext_in. intros i Hi.
  apply in_seq in Hi. apply Hfg. lia.
Qed.

Lemma Forall_tabulate {A : Type} (P : A -> Prop) (n : nat) (f : nat -> A) :
  (forall i, i < n -> P (f i)) -> Forall P (tabulate n f).
Proof.
  intros HP. unfold tabulate. apply Forall_map, Forall_forall.
  intros i Hi. apply in_seq in Hi. apply HP. lia.
Qed.

Lemma mapM_Ok_map {A B : Type} (f : A -> res B) (g : A -> B) (l : list A) :
  (forall x, In x l -> f x = Ok (g x)) -> mapM f l = Ok (map g l).
Proof.
  induction l as [|a l IH]; intros Hf; [reflexivity|]. cbn [mapM map].
  rewrite (Hf a) by now left. cbn [bind].
  rewrite IH by (intros x Hx; apply Hf; now right). reflexivity.
Qed.

Lemma matmul_Ok (L M C : nat) (a b : tensor2 T) :
  wf2 L M a -> wf2 M C b -> 0 < L -> 0 < M ->
  matmul a b = Ok (map (fun r => tabulate C (fun j => dot r (col b j))) a).
Proof.
  intros Ha Hb HL HM. unfold matmul.
  rewrite !(hd_nth0 _ []).
  rewrite (wf2_row _ _ _ 0 Ha HL), (wf2_row _ _ _ 0 Hb HM).
  destruct Hb as [Hb _]. rewrite Hb, Nat.eqb_refl. reflexivity.
Qed.

Lemma matmul_wf (L M C : nat) (a b : tensor2 T) :
  wf2 L M a ->
  wf2 L C (map (fun r => tabulate C (fun j => dot r (col b j))) a).
Proof.
  intros [Ha _]. split; [now rewrite length_map|].
  apply Forall_map, Forall_forall. intros r _. apply length_tabulate.
Qed.

Lemma bmm_Ok (N : nat) (a b : tensor3 T) (g : nat -> tensor2 T) :
  length a = N -> length b = N -> 0 < N ->
  (forall i, i < N -> matmul (nth i a []) (nth i b []) = Ok (g i)) ->
  bmm a b = Ok (tabulate N g).
Proof.
  intros Ha Hb HN Hg. unfold bmm. rewrite Ha, Hb, Nat.eqb_refl. cbn [orb].
  assert (Hseq : (if Nat.eqb N 1 then N else N) = N) by now destruct (Nat.eqb N 1).
  rewrite Hseq. unfold tabulate. apply mapM_Ok_map.
  intros i Hi. apply in_seq in Hi.
  destruct (Nat.eqb N 1) eqn:E.
  - apply Nat.eqb_eq in E. replace i with 0 by lia. apply Hg. lia.
  - apply Hg. lia.
Qed.

Lemma bmm_wf (N L M C : nat) (a b : tensor3 T) :
  wf3 N L M a -> wf3 N M C b -> 0 < N -> 0 < L -> 0 < M ->
  exists c, bmm a b = Ok c /\ wf3 N L C c.
Proof.
  intros Ha Hb HN HL HM.
  exists (tabulate N (fun i =>
            map (fun r => tabulate C (fun j => dot r (col (nth i b []) j))) (nth i a []))).
  split.
  - apply bmm_Ok; try assumption; try (now destruct Ha); try (now destruct Hb).
    intros i Hi. apply (matmul_Ok L M C); try assumption.
    + now apply (wf3_nth _ _ _ _ i Ha).
    + now apply (wf3_nth _ _ _ _ i Hb).
  - apply wf3_intro; [apply length_tabulate|].
    intros i Hi. rewrite nth_tabulate by assumption.
    apply (matmul_wf L M C). now apply (wf3_nth _ _ _ _ i Ha).
Qed.

Lemma transpose2_wf (R C : nat) (m : tensor2 T) :
  wf2 R C m -> 0 < R -> wf2 C R (transpose2 m).
Proof.
  intros Hm HR. unfold transpose2.
  rewrite (hd_nth0 _ []), (wf2_row _ _ _ 0 Hm HR).
  split; [apply length_tabulate|].
  apply Forall_tabulate. intros j _. unfold col. rewrite length_map.
  now destruct Hm.
Qed.

Lemma transpose2_involutive (R C : nat) (m : tensor2 T) :
  wf2 R C m -> 0 < R -> 0 < C -> transpose2 (transpose2 m) = m.
Proof.
  intros Hm HR HC.
  pose proof (transpose2_wf R C m Hm HR) as Ht.
  unfold transpose2 at 1.
  rewrite (hd_nth0 _ []), (wf2_row _ _ _ 0 Ht HC).
  assert (HL : length m = R) by now destruct Hm.
  rewrite <- (tabulate_nth m []) at 2. rewrite HL.
  apply tabulate_ext. intros i Hi.
  unfold col at 1, transpose2.
  rewrite (hd_nth0 _ []), (wf2_row _ _ _ 0 Hm HR).
  unfold tabulate at 1. rewrite map_map.
  rewrite <- (tabulate_nth (nth i m []) szero), (wf2_row _ _ _ i Hm Hi).
  apply tabulate_ext. intros j Hj.
  unfold at1, col. now rewrite (nth_map_lt _ _ _ []) by lia.
Qed.

Lemma length_concat_wf (H W : nat) (g : tensor2 T) :
  wf2 H W g -> length (concat g) = H * W.
Proof.
  intros [HL HF]. subst H. induction g as [|r g IH]; [reflexivity|].
  inversion HF; subst. simpl. rewrite length_app, IH by assumption. reflexivity.
Qed.

Lemma chunk_of_concat (W : nat) (g : tensor2 T) (h : nat) :
  Forall (fun r => length r = W) g -> h < length g ->
  firstn W (skipn (h * W) (concat g)) = nth h g [].
Proof.
  intros HF. revert h. induction HF as [|r g Hr HF IH]; intros h Hh; [simpl in Hh; lia|].
  destruct h as [|h]; simpl concat.
  - simpl skipn. rewrite firstn_app, Hr, Nat.sub_diag, firstn_O, app_nil_r.
    rewrite <- Hr. apply firstn_all.
  - rewrite skipn_app, Hr.
    rewrite (skipn_all2 r) by (simpl; lia).
    replace (S h * W - W) with (h * W) by (simpl; lia).
    simpl app. simpl nth. apply IH. simpl in Hh. lia.
Qed.

Lemma unflatten_concat (H W : nat) (g : tensor2 T) :
  wf2 H W g ->
  tabulate H (fun h => firstn W (skipn (h * W) (concat g))) = g.
Proof.
  intros [HL HF]. transitivity (tabulate H (fun h => nth h g [])).
  - apply tabulate_ext. intros h Hh. apply chunk_of_concat; [exact HF|lia].
  - rewrite <- HL. apply tabulate_nth.
Qed.

(** Flattening the spatial axes, moving the channels last, and undoing
    both gives the tensor back. *)
Lemma unflatten_transpose_roundtrip (N C H W : nat) (t : tensor4 T) :
  wf4 N C H W t -> 0 < C -> 0 < H -> 0 < W ->
  unflatten_hw H W (map transpose2 (map transpose2 (flatten_hw t))) = t.
Proof.
  intros Ht HC HH HW. unfold unflatten_hw, flatten_hw.
  rewrite !map_map. rewrite <- (map_id t) at 2.
  apply map_ext_in. intros s Hs.
  assert (Hwf : wf3 C H W s).
  { destruct Ht as [_ HF]. rewrite Forall_forall in HF. now apply HF. }
  assert (Hflat : wf2 C (H * W) (map (@concat T) s)).
  { destruct Hwf as [HL HF]. split; [now rewrite length_map|].
    apply Forall_map. eapply Forall_impl; [|exact HF].
    intros ch Hch. now apply length_concat_wf. }
  rewrite (transpose2_involutive C (H * W)) by (try assumption; nia).
  rewrite map_map. rewrite <- (map_id s) at 2.
  apply map_ext_in. intros ch Hch. apply unflatten_concat.
  destruct Hwf as [_ HF]. rewrite Forall_forall in HF. now apply HF.
Qed.

Lemma keep_rows {A : Type} (r vr : list A) :
  length vr = length r ->
  zipWith (fun (rb : A * bool) v => if snd rb then v else fst rb)
          (combine r (map (fun _ => false) r)) vr = r.
Proof.
  revert vr. induction r as [|x r IH]; intros [|y vr] Hlen; simpl in Hlen;
    try lia; [reflexivity|].
  unfold zipWith in *. simpl. f_equal. apply IH. lia.
Qed.

End Matrices.

(** ** Spatial-affinity voting *)

Section Voting.
Context {T : Type} {ST : Scalar T} {SE : ScalarExp T}.

Lemma normalize_wf (N L C : nat) (k : tensor3 T) :
  wf3 N L C k -> 0 < L -> wf3 N L C (normalize k).
Proof.
  intros [HN HF] HL. unfold normalize. split; [now rewrite length_map|].
  apply Forall_map. eapply Forall_impl; [|exact HF].
  intros m Hm. cbv beta zeta.
  rewrite (hd_nth0 _ []), (wf2_row _ _ _ 0 Hm HL).
  destruct Hm as [HmL HmF]. split; [now rewrite length_map|].
  apply Forall_map. eapply Forall_impl; [|exact HmF].
  intros r Hr. cbv beta in *. rewrite length_zipWith, length_tabulate. lia.
Qed.

Lemma map_transpose2_wf (N L C : nat) (k : tensor3 T) :
  wf3 N L C k -> 0 < L -> wf3 N C L (map transpose2 k).
Proof.
  intros [HN HF] HL. split; [now rewrite length_map|].
  apply Forall_map. eapply Forall_impl; [|exact HF].
  intros m Hm. now apply transpose2_wf.
Qed.

Lemma flatten_hw_wf (N C H W : nat) (t : tensor4 T) :
  wf4 N C H W t -> wf3 N C (H * W) (flatten_hw t).
Proof.
  intros [HN HF]. unfold flatten_hw. split; [now rewrite length_map|].
  apply Forall_map. eapply Forall_impl; [|exact HF].
  intros s [HsL HsF]. split; [now rewrite length_map|].
  apply Forall_map. eapply Forall_impl; [|exact HsF].
  intros ch Hch. now apply length_concat_wf.
Qed.

(** The affinity matrix exists and is square. *)
Lemma affinity_wf (N L C : nat) (k : tensor3 T) :
  wf3 N L C k -> 0 < N -> 0 < L -> 0 < C ->
  exists attn, bmm (normalize k) (map transpose2 (normalize k)) = Ok attn /\
               wf3 N L L attn.
Proof.
  intros Hk HN HL HC.
  pose proof (normalize_wf N L C k Hk HL) as Hn.
  apply (bmm_wf N L C L); try assumption.
  now apply map_transpose2_wf.
Qed.

(** An iteration of the vote in which no pixel is selected leaves the
    distributions as they are. *)
Lemma vote_step_no_overwrite (h : MaskClipHead T) (attn o : tensor3 T)
  (N L C i : nat) (thr : T) :
  wf3 N L L attn -> wf3 N L C o -> 0 < N -> 0 < L -> 0 < C ->
  nth_error (vote_thresh h) i = Some thr ->
  Forall (Forall (fun v => sltb (max_list v) thr = false)) o ->
  vote_step h attn o i = Ok o.
Proof.
  intros Hattn Ho HN HL HC Hthr Hmask. unfold vote_step.
  assert (Hlen : Nat.ltb 0 (length (vote_thresh h)) = true).
  { apply Nat.ltb_lt. destruct (vote_thresh h); [destruct i; discriminate|simpl; lia]. }
  rewrite Hlen.
  destruct (bmm_wf N L L C attn o Hattn Ho HN HL HL) as (vo & -> & Hvo).
  cbn [bind].
  rewrite (shape3_wf _ _ _ _ Ho HN HL).
  assert (Hprod : Nat.eqb (N * L * C) 0 = false).
  { apply Nat.eqb_neq. destruct N, L, C; simpl; lia. }
  rewrite Hprod, Hthr. cbn [bind].
  pose proof (shape3_wf _ _ _ _ Hvo HN HL) as Hs. unfold shape3 in Hs.
  injection Hs as -> -> ->. rewrite shape_eqb_refl.
  f_equal.
  assert (Hsel : map (map (fun v => sltb (max_list v) thr)) o =
                 map (map (fun _ => false)) o).
  { apply map_ext_in. intros s Hs. apply map_ext_in. intros v Hv.
    rewrite Forall_forall in Hmask. specialize (Hmask s Hs).
    rewrite Forall_forall in Hmask. now apply Hmask. }
  rewrite Hsel.
  destruct Ho as [HoL HoF], Hvo as [HvoL HvoF].
  apply (nth_ext _ _ [] []).
  - rewrite length_zipWith, length_combine, length_map. lia.
  - intros n Hn. rewrite length_zipWith, length_combine, length_map in Hn.
    rewrite (nth_zipWith_lt _ _ _ _ ([], []) [])
      by (rewrite ?length_combine, ?length_map; lia).
    rewrite combine_nth by now rewrite length_map.
    cbn [fst snd]. rewrite (nth_map_lt _ _ _ []) by lia.
    apply keep_rows.
    pose proof (Forall_nth_lt _ _ [] n HoF ltac:(lia)) as [H1 _].
    pose proof (Forall_nth_lt _ _ [] n HvoF ltac:(lia)) as [H2 _].
    lia.
Qed.

Lemma vote_loop_no_overwrite (h : MaskClipHead T) (attn o : tensor3 T)
  (N L C : nat) (thr : T) (idx : list nat) :
  wf3 N L L attn -> wf3 N L C o -> 0 < N -> 0 < L -> 0 < C ->
  (forall i, In i idx -> nth_error (vote_thresh h) i = Some thr) ->
  Forall (Forall (fun v => sltb (max_list v) thr = false)) o ->
  fold_left (fun acc i => o' <- acc ;; vote_step h attn o' i) idx (Ok o) = Ok o.
Proof.
  intros Hattn Ho HN HL HC Hthr Hmask.
  induction idx as [|i idx IH]; [reflexivity|]. cbn [fold_left bind].
  rewrite (vote_step_no_overwrite h attn o N L C i thr); try assumption.
  - apply IH. intros j Hj. apply Hthr. now right.
  - apply Hthr. now left.
Qed.

(** When no pixel's confidence is below the threshold, the voting
    stage returns the sharpened softmax of its input. *)
Lemma vote_stage_no_overwrite (h : MaskClipHead T) (out : tensor4 T)
  (k : tensor3 T) (N C H W Ck : nat) (thr : T) :
  wf4 N C H W out -> wf3 N (H * W) Ck k ->
  0 < N -> 0 < C -> 0 < H -> 0 < W -> 0 < Ck ->
  (0 < num_vote h)%Z ->
  vote_thresh h = repeat thr (Z.to_nat (num_vote h)) ->
  Forall (Forall (fun v => sltb (max_list v) thr = false))
         (map transpose2 (flatten_hw (sharpen out))) ->
  vote_stage h out false (Some k) = Ok (sharpen out, true).
Proof.
  intros Hout Hk HN HC HH HW HCk Hnv Hthr Hmask. unfold vote_stage.
  rewrite (proj2 (Z.ltb_lt 0 (num_vote h)) Hnv).
  pose proof (sharpen_wf N C H W out Hout HC HH) as Hsh.
  rewrite (shape4_wf _ _ _ _ _ Hsh HN HC HH).
  assert (HL : 0 < H * W) by nia.
  destruct (affinity_wf N (H * W) Ck k Hk HN HL HCk) as (attn & -> & Hattn).
  cbn [bind].
  assert (Htok : wf3 N (H * W) C (map transpose2 (flatten_hw (sharpen out)))).
  { apply map_transpose2_wf; [now apply flatten_hw_wf|assumption]. }
  rewrite (vote_loop_no_overwrite h attn _ N (H * W) C thr); try assumption.
  - cbn [bind]. destruct Htok as [-> _]. rewrite Nat.eqb_refl.
    rewrite (unflatten_transpose_roundtrip N C H W) by assumption.
    reflexivity.
  - intros i Hi. apply in_seq in Hi. rewrite Hthr.
    rewrite nth_error_repeat by lia. reflexivity.
Qed.

End Voting.

(** ** Positivity of the sharpened softmax over the reals *)

Section RealSoftmax.
Local Open Scope R_scope.

Lemma Rsum_pos (l : list R) (acc : R) :
  0 <= acc -> Forall (fun x => 0 < x) l -> l <> [] -> 0 < fold_left Rplus l acc.
Proof.
  revert acc. induction l as [|x l IH]; intros acc Hacc HF Hne; [congruence|].
  inversion HF as [|? ? Hx HF']; subst. simpl.
  destruct l as [|y l]; [simpl; lra|].
  apply IH; [lra|assumption|discriminate].
Qed.

Lemma softmax_vec_pos (v : list R) (c : nat) :
  (c < length v)%nat -> 0 < at1 (softmax_vec v) c.
Proof.
  intros Hc. unfold at1, softmax_vec.
  rewrite (nth_map_lt _ _ _ 0) by now rewrite length_map.
  rewrite (nth_map_lt _ _ _ 0) by assumption.
  cbn [sdiv sexp Scalar_R ScalarExp_R].
  apply Rdiv_lt_0_compat; [apply exp_pos|].
  unfold sum_list. cbn [sadd Scalar_R]. apply Rsum_pos.
  - unfold szero. cbn [sconst Scalar_R]. lra.
  - apply Forall_map, Forall_forall. intros x _. apply exp_pos.
  - destruct v; [simpl in Hc; lia|discriminate].
Qed.

Lemma Rmax_list_pos (l : list R) :
  l <> [] -> Forall (fun x => 0 < x) l -> 0 < max_list l.
Proof.
  intros Hne HF. destruct l as [|a l]; [congruence|].
  inversion HF as [|? ? Ha HF']; subst. unfold max_list. cbn [hd tl].
  clear Hne HF. revert a Ha. induction HF' as [|b l Hb HF' IH]; intros a Ha; [exact Ha|].
  cbn [fold_left]. apply IH. unfold smax. now destruct (sltb a b).
Qed.

Lemma Rsltb_pos_zero (x : R) : 0 < x -> sltb x (sconst 0) = false.
Proof.
  intros Hx. cbn [sltb sconst Scalar_R].
  destruct (Rlt_dec x 0); [lra|reflexivity].
Qed.

Lemma sharpen_sample_pos (N C H W : nat) (out : tensor4 R) (n : nat) :
  wf4 N C H W out -> (0 < C)%nat -> (0 < H)%nat -> (n < N)%nat ->
  Forall (Forall (Forall (fun x => 0 < x))) (nth n (sharpen out) []).
Proof.
  intros Hout HC HH Hn. rewrite (sharpen_nth N C H W) by assumption.
  apply Forall_tabulate. intros c Hc.
  apply Forall_tabulate. intros h Hh.
  apply Forall_tabulate. intros w Hw.
  apply softmax_vec_pos. rewrite length_map, length_pixel.
  destruct (wf4_nth _ _ _ _ _ n Hout Hn) as [HL _]. lia.
Qed.

(** Every pixel's largest sharpened-softmax confidence is positive, so
    none is below a threshold of zero. *)
Lemma no_pixel_below_zero (N C H W : nat) (out : tensor4 R) :
  wf4 N C H W out -> (0 < C)%nat -> (0 < H)%nat -> (0 < W)%nat ->
  Forall (Forall (fun v => sltb (max_list v) (sconst 0) = false))
         (map transpose2 (flatten_hw (sharpen out))).
Proof.
  intros Hout HC HH HW.
  pose proof (sharpen_wf N C H W out Hout HC HH) as Hsh.
  unfold flatten_hw. rewrite map_map.
  apply Forall_map. apply (Forall_of_nth _ _ []). intros n Hn.
  destruct Hsh as [HshL HshF]. rewrite HshL in Hn.
  pose proof (Forall_nth_lt _ _ [] n HshF ltac:(lia)) as Hs.
  pose proof (sharpen_sample_pos N C H W out n Hout HC HH Hn) as Hpos.
  set (s := nth n (sharpen out) []) in *.
  unfold transpose2. apply Forall_tabulate. intros p Hp.
  destruct Hs as [HsL HsF].
  assert (Hp' : (p < H * W)%nat).
  { rewrite (hd_nth0 _ []), (nth_map_lt _ _ _ []) in Hp by lia.
    rewrite (length_concat_wf H W) in Hp; [exact Hp|].
    apply (Forall_nth_lt _ _ [] 0 HsF). lia. }
  apply Rsltb_pos_zero, Rmax_list_pos.
  - unfold col. destruct s; [simpl in HsL; lia|discriminate].
  - unfold col. rewrite map_map. apply Forall_map, Forall_forall.
    intros ch Hch. unfold at1.
    assert (Hchwf : wf2 H W ch).
    { rewrite Forall_forall in HsF. now apply HsF. }
    assert (Hchpos : Forall (fun x => 0 < x) (concat ch)).
    { apply Forall_concat. rewrite Forall_forall in Hpos. now apply Hpos. }
    apply (Forall_nth_lt _ _ szero p Hchpos).
    now rewrite (length_concat_wf H W).
Qed.

End RealSoftmax.

(** ** The stages keep the shape of the logit map *)

Section ShapePreservation.
Context {T : Type} {ST : Scalar T} {SE : ScalarExp T}.

Lemma new_full_wf (N C H W : nat) (v : T) : wf4 N C H W (new_full N C H W v).
Proof.
  unfold new_full. split; [apply repeat_length|].
  apply Forall_forall. intros s Hs. apply repeat_spec in Hs. subst s.
  split; [apply repeat_length|].
  apply Forall_forall. intros ch Hch. apply repeat_spec in Hch. subst ch.
  apply wf2_repeat.
Qed.






Lemma vote_step_wf (h : MaskClipHead T) (attn o o' : tensor3 T) (N L C i : nat) :
  wf3 N L L attn -> wf3 N L C o -> 0 < N -> 0 < L ->
  vote_step h attn o i = Ok o' -> wf3 N L C o'.
Proof.
  intros Hattn Ho HN HL Hstep. unfold vote_step in Hstep.
  destruct (bmm_wf N L L C attn o Hattn Ho HN HL HL) as (vo & Hvo & Hvowf).
  rewrite Hvo in Hstep.
  destruct (Nat.ltb 0 (length (vote_thresh h))); [|now injection Hstep as <-].
  cbn [bind] in Hstep. rewrite (shape3_wf _ _ _ _ Ho HN HL) in Hstep.
  destruct (Nat.eqb (N * L * C) 0); [discriminate|].
  destruct (nth_error (vote_thresh h) i) as [thr|]; [|discriminate].
  cbn [bind] in Hstep.
  destruct (shape_eqb _ _); [|discriminate]. injection Hstep as <-.
  destruct Ho as [HoL HoF], Hvowf as [HvL HvF].
  apply wf3_intro.
  - rewrite length_zipWith, length_combine, length_map. lia.
  - intros n Hn.
    rewrite (nth_zipWith_lt _ _ _ _ ([], []) [])
      by (rewrite ?length_combine, ?length_map; lia).
    rewrite combine_nth by now rewrite length_map.
    cbn [fst snd]. rewrite (nth_map_lt _ _ _ []) by lia.
    pose proof (Forall_nth_lt _ _ [] n HoF ltac:(lia)) as [H1 F1].
    pose proof (Forall_nth_lt _ _ [] n HvF ltac:(lia)) as [H2 F2].
    set (on := nth n o []) in *. set (vn := nth n vo []) in *.
    apply wf2_intro.
    + rewrite length_zipWith, length_combine, length_map. lia.
    + intros p Hp.
      rewrite (nth_zipWith_lt _ _ _ _ ([], false) [])
        by (rewrite ?length_combine, ?length_map; lia).
      rewrite combine_nth by now rewrite length_map.
      cbn [fst snd].
      destruct (nth p (map _ on) false).
      * apply (Forall_nth_lt _ _ [] p F2). lia.
      * apply (Forall_nth_lt _ _ [] p F1). lia.
Qed.




End ShapePreservation.

(** * Main results *)

Section Claims.
Context {T : Type} {ST : Scalar T} {SE : ScalarExp T}.

Lemma gate_stage_topk (h : MaskClipHead T) (out : tensor4 T) (tok : option (tensor2 T)) :
  (0 < topk_text h)%Z -> gate_stage h out tok = topk_gate h out tok.
Proof. intros Hk. unfold gate_stage. now rewrite (proj2 (Z.ltb_lt _ _) Hk). Qed.

Lemma gate_stage_conf (h : MaskClipHead T) (out : tensor4 T) (tok : option (tensor2 T)) :
  (topk_text h <= 0)%Z -> sltb szero (cls_thresh h) = true ->
  gate_stage h out tok = conf_gate h out.
Proof.
  intros Hk Ht. unfold gate_stage.
  rewrite (proj2 (Z.ltb_ge _ _) Hk), Ht. reflexivity.
Qed.

Lemma gate_stage_off (h : MaskClipHead T) (out : tensor4 T) (tok : option (tensor2 T)) :
  (topk_text h <= 0)%Z -> sltb szero (cls_thresh h) = false ->
  gate_stage h out tok = Ok out.
Proof.
  intros Hk Ht. unfold gate_stage.
  rewrite (proj2 (Z.ltb_ge _ _) Hk), Ht. reflexivity.
Qed.

Lemma vote_stage_off (h : MaskClipHead T) (out : tensor4 T) (flag : bool)
  (k : option (tensor3 T)) :
  k = None \/ (num_vote h <= 0)%Z -> vote_stage h out flag k = Ok (out, flag).
Proof.
  intros [->|Hnv]; [reflexivity|]. unfold vote_stage.
  destruct k; [|reflexivity]. now rewrite (proj2 (Z.ltb_ge _ _) Hnv).
Qed.

Lemma bg_stage_off (h : MaskClipHead T) (out : tensor4 T) (flag : bool) :
  text_categories h <= num_classes h -> sltb szero (bg_thresh h) = false ->
  bg_stage h out flag = Ok out.
Proof.
  intros Hc Hb. unfold bg_stage.
  rewrite (proj2 (Nat.ltb_ge _ _) Hc), Hb. reflexivity.
Qed.

(** C1: with [topk_text = 2] and five text categories, top-k gating is
    meant to keep two channels and set the other three to -100.  The
    code indexes the batch axis with the selected category indices, so
    for a batch of one sample the evaluation-mode refinement raises
    IndexError instead, whatever the logits and the class token are. *)
Theorem topk_gating_batch_of_one_raises (h : MaskClipHead T) (out : tensor4 T)
  (k : option (tensor3 T)) (tok : tensor2 T) (H W : nat) :
  topk_text h = 2%Z ->
  wf2 5 (text_channels h) (text_embeddings h) -> 0 < text_channels h ->
  wf4 1 5 H W out -> wf2 1 (text_channels h) tok -> 0 < H -> 0 < W ->
  refine_output h out k (Some tok) = Err IndexError.
Proof.
  intros Hk Hemb HC Hout Htok HH HW. unfold refine_output.
  rewrite gate_stage_topk by lia.
  now rewrite (topk_gate_batch_of_one h out tok H W).
Qed.

(** C2 (as amended): in training mode [forward] does not raise because
    of the mode: it returns the classifier's logits without running the
    refinement, and fails only where the projector or the classifier
    fails. *)
Theorem forward_training_returns_logits (Inputs : Type)
  (_transform_inputs : Inputs -> res (features T))
  (mha : list (list (list T)) -> Z -> list (list T) -> list (list T) ->
         list (list T) -> list T -> list (list T) -> list T -> bool ->
         res (list (list (list T))))
  (h : MaskClipHead T) (inputs : Inputs) :
  training h = true ->
  forward _transform_inputs mha h inputs =
  (x <- _transform_inputs inputs ;;
   p <- project mha h x ;;
   cls_seg h (fst (fst p))).
Proof.
  intros Htr. unfold forward. rewrite Htr. cbn [negb].
  destruct (_transform_inputs inputs) as [x|e]; [|reflexivity]. cbn [bind].
  destruct (project mha h x) as [[[feat k] tok]|e]; [|reflexivity]. cbn [bind fst].
  now destruct (cls_seg h feat).
Qed.


(** C5: with [topk_text = 0] and [cls_thresh > 0], a channel whose
    largest sharpened-softmax confidence over the positions of a sample
    is below [cls_thresh] is -100 at every position of that sample, and
    every other channel is unchanged; this is the whole refinement when
    voting and background synthesis are inactive. *)
Theorem confidence_threshold_gating (h : MaskClipHead T) (out : tensor4 T)
  (k : option (tensor3 T)) (tok : option (tensor2 T)) (N C H W : nat) :
  topk_text h = 0%Z -> sltb szero (cls_thresh h) = true ->
  wf4 N C H W out -> 0 < N -> 0 < C -> 0 < H -> 0 < W ->
  exists out',
    gate_stage h out tok = Ok out' /\
    wf4 N C H W out' /\
    (forall n c, n < N -> c < C ->
       let conf := max_list (concat (nth c (nth n (sharpen out) []) [])) in
       forall hh w, hh < H -> w < W ->
         at4 out' n c hh w =
         if sltb conf (cls_thresh h) then sconst (-100) else at4 out n c hh w) /\
    (k = None \/ (num_vote h <= 0)%Z ->
     text_categories h <= num_classes h -> sltb szero (bg_thresh h) = false ->
     refine_output h out k tok = Ok out').
Proof.
  intros Hk Hthr Hout HN HC HH HW.
  destruct (conf_gate_spec h out N C H W Hout HN HC HH HW) as (out' & Hg & Hwf & Hpt).
  exists out'. rewrite gate_stage_conf by (try assumption; lia).
  split; [exact Hg|]. split; [exact Hwf|]. split; [exact Hpt|].
  intros Hvote Hcat Hbg. unfold refine_output.
  rewrite gate_stage_conf by (try assumption; lia). rewrite Hg. cbn [bind].
  rewrite vote_stage_off by assumption. cbn [bind fst snd].
  now apply bg_stage_off.
Qed.

(** C6: at most one of the two gating stages runs, and top-k gating has
    precedence: with [topk_text > 0] the gate is top-k gating and the
    refinement does not depend on [cls_thresh]; otherwise the gate is
    confidence gating when [cls_thresh > 0] and nothing when it is not. *)
Theorem gating_stages_exclusive (h : MaskClipHead T) (out : tensor4 T)
  (k : option (tensor3 T)) (tok : option (tensor2 T)) :
  ((0 < topk_text h)%Z ->
     gate_stage h out tok = topk_gate h out tok /\
     forall t, refine_output (set_cls_thresh h t) out k tok = refine_output h out k tok) /\
  ((topk_text h <= 0)%Z -> sltb szero (cls_thresh h) = true ->
     gate_stage h out tok = conf_gate h out) /\
  ((topk_text h <= 0)%Z -> sltb szero (cls_thresh h) = false ->
     gate_stage h out tok = Ok out).
Proof.
  split; [|split].
  - intros Hk. split; [now apply gate_stage_topk|].
    intros t. unfold refine_output.
    rewrite !gate_stage_topk by assumption. reflexivity.
  - apply gate_stage_conf.
  - apply gate_stage_off.
Qed.

(** C7: with [num_vote = 0] the voting stage is the identity on the
    logit map (and on the flag that records the conversion to
    probabilities), so the refinement does not depend on the key tensor. *)
Theorem voting_noop_without_votes (h : MaskClipHead T) (out : tensor4 T)
  (flag : bool) (k : option (tensor3 T)) (tok : option (tensor2 T)) :
  num_vote h = 0%Z ->
  vote_stage h out flag k = Ok (out, flag) /\
  refine_output h out k tok = refine_output h out None tok.
Proof.
  intros Hnv. split.
  - apply vote_stage_off. right. lia.
  - unfold refine_output. destruct (gate_stage h out tok) as [g|e]; [|reflexivity].
    cbn [bind]. rewrite !vote_stage_off by (right; lia). reflexivity.
Qed.

End Claims.

(** C3 (as amended): a projection stored with a two-axis weight is
    loaded with two axes of size one appended, for the single projection
    of a ViT head and for the four of a convolutional one; the axes are
    appended to every weight whatever its rank, so a weight stored with
    four axes arrives with six and the load fails. *)
Theorem load_visual_projs_appends_axes {T : Type} (h : MaskClipHead T)
  (loaded : artifact T) :
  (forall proj w b,
     projs h = ViTProj proj -> stores_linear loaded "proj" proj w b ->
     load_visual_projs h loaded = Ok (set_projs h (ViTProj (loaded_conv w b)))) /\
  (forall q k v c wq bq wk bk wv bv wc bc,
     projs h = ResNetProjs q k v c ->
     stores_linear loaded "q_proj" q wq bq -> stores_linear loaded "k_proj" k wk bk ->
     stores_linear loaded "v_proj" v wv bv -> stores_linear loaded "c_proj" c wc bc ->
     load_visual_projs h loaded =
     Ok (set_projs h (ResNetProjs (loaded_conv wq bq) (loaded_conv wk bk)
                                  (loaded_conv wv bv) (loaded_conv wc bc)))) /\
  (forall proj sd w,
     projs h = ViTProj proj -> lookup "proj" loaded = Some sd ->
     lookup "weight" sd = Some w ->
     length (shape w) = 4 -> length (shape (weight proj)) = 4 ->
     exists e, load_visual_projs h loaded = Err e) /\
  (forall q k v c attr m sd w,
     projs h = ResNetProjs q k v c ->
     In (attr, m) [("q_proj"%string, q); ("k_proj"%string, k);
                   ("v_proj"%string, v); ("c_proj"%string, c)] ->
     lookup attr loaded = Some sd -> lookup "weight" sd = Some w ->
     length (shape w) = 4 -> length (shape (weight m)) = 4 ->
     exists e, load_visual_projs h loaded = Err e).
Proof.
  split; [|split; [|split]].
  - intros proj w b Hp Hs. unfold load_visual_projs. rewrite Hp.
    now rewrite (load_attr_linear _ _ _ _ _ Hs).
  - intros q k v c wq bq wk bk wv bv wc bc Hp Hq Hk Hv Hc.
    unfold load_visual_projs. rewrite Hp.
    rewrite (load_attr_linear _ _ _ _ _ Hq), (load_attr_linear _ _ _ _ _ Hk),
            (load_attr_linear _ _ _ _ _ Hv), (load_attr_linear _ _ _ _ _ Hc).
    reflexivity.
  - intros proj sd w Hp Hsd Hw H4 Hm. unfold load_visual_projs. rewrite Hp.
    destruct (load_attr_4d_rejected loaded "proj" proj sd w Hsd Hw H4 Hm) as [e ->].
    now exists e.
  - intros q k v c attr m sd w Hp Hin Hsd Hw H4 Hm.
    destruct (load_attr_4d_rejected loaded attr m sd w Hsd Hw H4 Hm) as [e He].
    unfold load_visual_projs. rewrite Hp.
    simpl in Hin.
    destruct Hin as [E|[E|[E|[E|[]]]]]; injection E as <- <-.
    + rewrite He. now exists e.
    + destruct (load_attr loaded "q_proj" q); [|cbn; eauto]. cbn [bind].
      rewrite He. now exists e.
    + destruct (load_attr loaded "q_proj" q); [|cbn; eauto]. cbn [bind].
      destruct (load_attr loaded "k_proj" k); [|cbn; eauto]. cbn [bind].
      rewrite He. now exists e.
    + destruct (load_attr loaded "q_proj" q); [|cbn; eauto]. cbn [bind].
      destruct (load_attr loaded "k_proj" k); [|cbn; eauto]. cbn [bind].
      destruct (load_attr loaded "v_proj" v); [|cbn; eauto]. cbn [bind].
      rewrite He. now exists e.
Qed.

(** C8: [cls_seg] returns a map of shape batch x text_categories x
    height x width whose value for category [k] at a pixel is the inner
    product of row [k] of the text-embedding table with the pixel's
    feature vector divided, component by component, by its L2 norm. *)
Theorem cls_seg_is_normalized_inner_product {T : Type} {ST : Scalar T}
  (h : MaskClipHead T) (feat : tensor4 T) (N H W : nat) :
  wf4 N (text_channels h) H W feat ->
  wf2 (text_categories h) (text_channels h) (text_embeddings h) ->
  0 < N -> 0 < text_channels h -> 0 < H -> 0 < text_categories h ->
  exists out,
    cls_seg h feat = Ok out /\
    wf4 N (text_categories h) H W out /\
    shape4 out = (N, text_categories h, H, W) /\
    forall n k hh w, n < N -> k < text_categories h -> hh < H -> w < W ->
      let v := pixel (nth n feat []) hh w in
      let normalized := map (fun x => sdiv x (norm2 v)) v in
      at4 out n k hh w = dot normalized (nth k (text_embeddings h) []).
Proof.
  intros Hfeat Hemb HN HC HH HK.
  destruct (cls_seg_pointwise h feat N H W Hfeat Hemb HN HC HH HK)
    as (out & Hout & Hwf & Hpt).
  exists out. split; [exact Hout|]. split; [exact Hwf|]. split.
  - now apply shape4_wf.
  - intros n k hh w Hn Hk Hhh Hw. cbv zeta. now apply Hpt.
Qed.

(** C9: the division by the norm in [cls_seg] has no guard: in binary
    floating point, at a pixel whose feature vector is all zeros every
    logit is NaN, for every feature map, embedding table and category. *)
Theorem cls_seg_zero_pixel_is_nan (h : MaskClipHead PrimFloat.float)
  (feat : tensor4 PrimFloat.float) (N H W n hh w : nat) :
  wf4 N (text_channels h) H W feat ->
  wf2 (text_categories h) (text_channels h) (text_embeddings h) ->
  0 < N -> 0 < text_channels h -> 0 < H -> 0 < text_categories h ->
  n < N -> hh < H -> w < W ->
  (forall c, c < text_channels h -> at4 feat n c hh w = szero) ->
  exists out,
    cls_seg h feat = Ok out /\
    forall k, k < text_categories h -> at4 out n k hh w = PrimFloat.nan.
Proof.
  intros Hfeat Hemb HN HC HH HK Hn Hhh Hw Hzero.
  destruct (cls_seg_pointwise h feat N H W Hfeat Hemb HN HC HH HK)
    as (out & Hout & _ & Hpt).
  exists out. split; [exact Hout|]. intros k Hk.
  rewrite Hpt by assumption.
  destruct (wf4_nth _ _ _ _ _ n Hfeat Hn) as [HsL _].
  assert (Hv : pixel (nth n feat []) hh w = repeat szero (text_channels h)).
  { unfold pixel. rewrite <- HsL. apply (map_const_repeat _ _ []).
    intros c Hc. apply Hzero. lia. }
  rewrite Hv, float_norm2_zeros, map_repeat.
  change (sdiv (szero : PrimFloat.float) szero) with PrimFloat.nan.
  apply float_dot_nan; [assumption|].
  rewrite (wf2_row _ _ _ k Hemb Hk). assumption.
Qed.

(** C10: a scalar [vote_thresh] is expanded to one entry per vote, so
    with the default 0.0, a key tensor and [num_vote > 0] every
    iteration takes the partial-update branch; no pixel's largest
    sharpened-softmax confidence is below 0, so nothing is overwritten
    and the voting stage returns the sharpened softmax of the logits.
    The other branch is taken only when [vote_thresh] was given as the
    empty list. *)
Theorem default_vote_thresh_overwrites_nothing (h : MaskClipHead R)
  (out : tensor4 R) (k : tensor3 R) (N C H W Ck : nat) :
  (0 < num_vote h)%Z ->
  vote_thresh h = init_vote_thresh (ThreshScalar 0%R) (num_vote h) ->
  wf4 N C H W out -> wf3 N (H * W) Ck k ->
  0 < N -> 0 < C -> 0 < H -> 0 < W -> 0 < Ck ->
  length (vote_thresh h) = Z.to_nat (num_vote h) /\
  Nat.ltb 0 (length (vote_thresh h)) = true /\
  Forall (Forall (fun v => sltb (max_list v) 0%R = false))
         (map transpose2 (flatten_hw (sharpen out))) /\
  vote_stage h out false (Some k) = Ok (sharpen out, true) /\
  (forall vt : vote_thresh_arg R,
     Nat.ltb 0 (length (init_vote_thresh vt (num_vote h))) = false <->
     vt = ThreshList []).
Proof.
  intros Hnv Hthr Hout Hk HN HC HH HW HCk.
  assert (Hlen : length (vote_thresh h) = Z.to_nat (num_vote h)).
  { rewrite Hthr. cbn [init_vote_thresh]. apply repeat_length. }
  pose proof (no_pixel_below_zero N C H W out Hout HC HH HW) as Hmask.
  split; [exact Hlen|]. split; [rewrite Hlen; apply Nat.ltb_lt; lia|].
  split; [exact Hmask|]. split.
  - apply (vote_stage_no_overwrite h out k N C H W Ck (sconst 0)); assumption.
  - intros vt. split.
    + intros Hz. apply Nat.ltb_ge in Hz. destruct vt as [x|l]; cbn [init_vote_thresh] in Hz.
      * rewrite repeat_length in Hz. lia.
      * destruct l; [reflexivity|simpl in Hz; lia].
    + intros ->. reflexivity.
Qed.

(** ** Instances at concrete inputs *)

Ltac solve_wf := repeat constructor.

Lemma Rsltb_zero_zero : sltb (szero : R) 0%R = false.
Proof.
  unfold szero. cbn [sltb sconst Scalar_R].
  destruct (Rlt_dec 0 0) as [Hlt|]; [exfalso; lra|reflexivity].
Qed.

Lemma Rsltb_zero_half : sltb (szero : R) (1 / 2)%R = true.
Proof.
  unfold szero. cbn [sltb sconst Scalar_R].
  destruct (Rlt_dec 0 (1 / 2)) as [|Hge]; [reflexivity|exfalso; lra].
Qed.

(** One sample, five categories, two selected: IndexError. *)
Lemma topk_gating_batch_of_one_raises_witness :
  refine_output (example_head 5 2 0%R 0 [] false) logits_1x5 None (Some token_1x1)
  = Err IndexError.
Proof.
  apply (topk_gating_batch_of_one_raises
           (example_head 5 2 0%R 0 [] false) logits_1x5 None token_1x1 1 1);
    first [reflexivity | cbn; lia | solve_wf].
Defined.

(** Two samples whose class tokens both select categories 0 and 1: the
    indices happen to be valid sample numbers, both samples are copied
    whole and no channel is set to -100. *)
Example topk_gate_batch_of_two_keeps_everything :
  topk_gate float_head_topk float_logits_2x5 (Some float_tokens_2)
  = Ok float_logits_2x5.
Proof. vm_compute. reflexivity. Qed.

Lemma forward_training_returns_logits_witness :
  forward (fun x : features R => Ok x) no_attention
          (example_head 5 0 0%R 0 [] true) (Single feat_1x1) =
  (x <- Ok (Single feat_1x1) ;;
   p <- project no_attention (example_head 5 0 0%R 0 [] true) x ;;
   cls_seg (example_head 5 0 0%R 0 [] true) (fst (fst p))).
Proof.
  apply (forward_training_returns_logits (features R)
           (fun x : features R => Ok x) no_attention
           (example_head 5 0 0%R 0 [] true) (Single feat_1x1)).
  reflexivity.
Defined.

(** A head in training mode returns a logit map: the call does not raise. *)
Lemma forward_training_returns_a_tensor :
  training (example_head 5 0 0%R 0 [] true) = true /\
  exists out,
    forward (fun x : features R => Ok x) no_attention
            (example_head 5 0 0%R 0 [] true) (Single feat_1x1) = Ok out.
Proof. split; [reflexivity|]. eexists. reflexivity. Qed.

Lemma load_visual_projs_appends_axes_witness :
  load_visual_projs (example_head 5 0 0%R 0 [] false) artifact_2d =
  Ok (set_projs (example_head 5 0 0%R 0 [] false)
        (ViTProj (loaded_conv {| shape := [1; 1]; data := [1%R] |} None))).
Proof.
  apply (proj1 (load_visual_projs_appends_axes
                  (example_head 5 0 0%R 0 [] false) artifact_2d)
               proj_1x1 {| shape := [1; 1]; data := [1%R] |} None).
  - reflexivity.
  - repeat split.
Defined.

(** A weight stored with four axes is not loaded: it arrives with six. *)
Lemma load_visual_projs_rejects_4d :
  load_visual_projs (example_head 5 0 0%R 0 [] false) artifact_4d = Err RuntimeError.
Proof. reflexivity. Qed.


Lemma confidence_threshold_gating_witness :
  exists out',
    refine_output (example_head 5 0 (1 / 2)%R 0 [] false) logits_1x5 None None = Ok out' /\
    wf4 1 5 1 1 out'.
Proof.
  destruct (confidence_threshold_gating
              (example_head 5 0 (1 / 2)%R 0 [] false) logits_1x5 None None 1 5 1 1)
    as (out' & _ & Hwf & _ & Href).
  - reflexivity.
  - apply Rsltb_zero_half.
  - solve_wf.
  - lia.
  - lia.
  - lia.
  - lia.
  - exists out'. split; [|exact Hwf].
    apply Href; [now left|cbn; lia|apply Rsltb_zero_zero].
Defined.

Lemma voting_noop_without_votes_witness :
  vote_stage (example_head 5 0 0%R 0 [] false) logits_1x5 false (Some key_1x1)
  = Ok (logits_1x5, false).
Proof.
  apply (proj1 (voting_noop_without_votes
                  (example_head 5 0 0%R 0 [] false) logits_1x5 false
                  (Some key_1x1) None eq_refl)).
Defined.

Lemma cls_seg_is_normalized_inner_product_witness :
  exists out, cls_seg float_head zero_feat = Ok out /\ shape4 out = (1, 2, 1, 1).
Proof.
  destruct (cls_seg_is_normalized_inner_product float_head zero_feat 1 1 1)
    as (out & Hout & _ & Hshape & _).
  - solve_wf.
  - solve_wf.
  - lia.
  - cbn; lia.
  - lia.
  - cbn; lia.
  - exists out. now split.
Defined.

Lemma cls_seg_zero_pixel_is_nan_witness :
  exists out,
    cls_seg float_head zero_feat = Ok out /\
    at4 out 0 0 0 0 = PrimFloat.nan /\ at4 out 0 1 0 0 = PrimFloat.nan.
Proof.
  destruct (cls_seg_zero_pixel_is_nan float_head zero_feat 1 1 1 0 0 0)
    as (out & Hout & Hnan).
  - solve_wf.
  - solve_wf.
  - lia.
  - cbn; lia.
  - lia.
  - cbn; lia.
  - lia.
  - lia.
  - lia.
  - intros c Hc. cbn in Hc. destruct c as [|[|c]]; [reflexivity|reflexivity|lia].
  - exists out. split; [exact Hout|]. split; apply Hnan; cbn; lia.
Defined.

Lemma default_vote_thresh_overwrites_nothing_witness :
  vote_stage (example_head 5 0 0%R 1 [0%R] false) logits_1x5 false (Some key_1x1)
  = Ok (sharpen logits_1x5, true).
Proof.
  apply (default_vote_thresh_overwrites_nothing
           (example_head 5 0 0%R 1 [0%R] false) logits_1x5 key_1x1 1 5 1 1 1);
    first [reflexivity | lia | solve_wf].
Defined.

(** * Further properties of the loaders and of construction *)

Section LoaderFacts.
Context {T : Type}.

Lemma load_attr_shapes (loaded : artifact T) (attr : string) (m m' : Conv2d T) :
  load_attr loaded attr m = Ok m' -> conv_shapes m' = conv_shapes m.
Proof.
  unfold load_attr. destruct (lookup attr loaded) as [sd|]; [|discriminate].
  destruct (mapM _ sd) as [sd'|e]; [|discriminate]. cbn [bind].
  unfold load_state_dict. destruct (forallb _ _); [|discriminate].
  unfold load_param at 1. destruct (lookup "weight" sd') as [w|]; [|discriminate].
  destruct (shape_eqb (shape w) (shape (weight m))); [|discriminate]. cbn [bind].
  destruct (bias m) as [b0|] eqn:Hb.
  - unfold load_param. destruct (lookup "bias" sd') as [b|]; [|discriminate].
    destruct (shape_eqb (shape b) (shape b0)); [|discriminate]. cbn [bind].
    intros H. injection H as <-. unfold conv_shapes. cbn. now rewrite Hb.
  - cbn [bind]. intros H. injection H as <-. unfold conv_shapes. cbn. now rewrite Hb.
Qed.

Lemma load_attr_depends_on_shapes (loaded : artifact T) (attr : string)
  (m1 m2 : Conv2d T) :
  conv_shapes m1 = conv_shapes m2 ->
  load_attr loaded attr m1 = load_attr loaded attr m2.
Proof.
  unfold conv_shapes. intros H. injection H as Hw Hb.
  unfold load_attr. destruct (lookup attr loaded) as [sd|]; [|reflexivity].
  destruct (mapM _ sd) as [sd'|e]; [|reflexivity]. cbn [bind].
  unfold load_state_dict, param_names, load_param. rewrite Hw.
  destruct (bias m1) as [b1|], (bias m2) as [b2|]; cbn in Hb; try discriminate.
  - injection Hb as Hb. now rewrite Hb.
  - reflexivity.
Qed.

Lemma reshape_rank_error (sd : state_dict T) :
  Exists (fun kv => contains "weight" (fst kv) = true /\ length (shape (snd kv)) < 2) sd ->
  mapM (fun kv : string * ndarray T =>
          if contains "weight" (fst kv)
          then t <- index_none_none (snd kv) ;; Ok (fst kv, t)
          else Ok kv) sd = Err IndexError.
Proof.
  induction sd as [|[key t] sd IH]; intros HE; [inversion HE|].
  cbn [mapM fst snd].
  inversion HE as [? ? [Hc Hlen]|? ? HE']; subst.
  - cbn [fst snd] in Hc, Hlen. rewrite Hc. unfold index_none_none.
    destruct (shape t) as [|a [|b rest]]; try reflexivity. simpl in Hlen. lia.
  - rewrite (IH HE').
    destruct (contains "weight" key); [|reflexivity].
    unfold index_none_none. now destruct (shape t) as [|a [|b rest]].
Qed.

End LoaderFacts.

Section ExtraLoader.
Context {T : Type} {ST : Scalar T}.

(** X1: an artifact that lacks a projection's sub-state is never
    loaded: for a ViT head without "proj", and for a convolutional head
    without "q_proj", the error is KeyError; a convolutional head
    missing any of its four sub-states fails. *)
Theorem load_visual_projs_missing_key (h : MaskClipHead T) (loaded : artifact T) :
  (forall proj, projs h = ViTProj proj -> lookup "proj" loaded = None ->
     load_visual_projs h loaded = Err KeyError) /\
  (forall q k v c, projs h = ResNetProjs q k v c -> lookup "q_proj" loaded = None ->
     load_visual_projs h loaded = Err KeyError) /\
  (forall q k v c attr, projs h = ResNetProjs q k v c ->
     In attr ["q_proj"%string; "k_proj"%string; "v_proj"%string; "c_proj"%string] ->
     lookup attr loaded = None ->
     exists e, load_visual_projs h loaded = Err e).
Proof.
  split; [|split].
  - intros proj Hp Hl. unfold load_visual_projs, load_attr. now rewrite Hp, Hl.
  - intros q k v c Hp Hl. unfold load_visual_projs, load_attr. now rewrite Hp, Hl.
  - intros q k v c attr Hp Hin Hl. unfold load_visual_projs. rewrite Hp.
    assert (He : forall m, load_attr loaded attr m = Err KeyError).
    { intros m. unfold load_attr. now rewrite Hl. }
    simpl in Hin. destruct Hin as [<-|[<-|[<-|[<-|[]]]]].
    + rewrite He. cbn. eauto.
    + destruct (load_attr loaded "q_proj" q); [|cbn; eauto]. cbn [bind].
      rewrite He. cbn. eauto.
    + destruct (load_attr loaded "q_proj" q); [|cbn; eauto]. cbn [bind].
      destruct (load_attr loaded "k_proj" k); [|cbn; eauto]. cbn [bind].
      rewrite He. cbn. eauto.
    + destruct (load_attr loaded "q_proj" q); [|cbn; eauto]. cbn [bind].
      destruct (load_attr loaded "k_proj" k); [|cbn; eauto]. cbn [bind].
      destruct (load_attr loaded "v_proj" v); [|cbn; eauto]. cbn [bind].
      rewrite He. cbn. eauto.
Qed.

(** X2: a stored entry whose key contains "weight" but which has fewer
    than two axes (a vector, a scalar) cannot be indexed with
    [[:, :, None, None]]: the load of that projection raises IndexError,
    before [load_state_dict] is reached. *)
Theorem load_visual_projs_weight_of_low_rank (h : MaskClipHead T)
  (loaded : artifact T) (sd : state_dict T) :
  Exists (fun kv => contains "weight" (fst kv) = true /\ length (shape (snd kv)) < 2) sd ->
  (forall attr m, lookup attr loaded = Some sd ->
     load_attr loaded attr m = Err IndexError) /\
  (forall proj, projs h = ViTProj proj -> lookup "proj" loaded = Some sd ->
     load_visual_projs h loaded = Err IndexError) /\
  (forall q k v c, projs h = ResNetProjs q k v c -> lookup "q_proj" loaded = Some sd ->
     load_visual_projs h loaded = Err IndexError).
Proof.
  intros HE.
  assert (Hattr : forall attr m, lookup attr loaded = Some sd ->
                    load_attr loaded attr m = Err IndexError).
  { intros attr m Hl. unfold load_attr. rewrite Hl.
    now rewrite (reshape_rank_error sd HE). }
  split; [exact Hattr|]. split.
  - intros proj Hp Hl. unfold load_visual_projs. rewrite Hp.
    now rewrite (Hattr "proj"%string proj Hl).
  - intros q k v c Hp Hl. unfold load_visual_projs. rewrite Hp.
    now rewrite (Hattr "q_proj"%string q Hl).
Qed.

Lemma load_visual_projs_result (h h' : MaskClipHead T) (loaded : artifact T) :
  load_visual_projs h loaded = Ok h' ->
  projs_shapes (projs h') = projs_shapes (projs h) /\ h' = set_projs h (projs h').
Proof.
  unfold load_visual_projs. destruct (projs h) as [proj|q k v c] eqn:Hp.
  - destruct (load_attr loaded "proj" proj) as [p|e] eqn:H1; [|discriminate].
    cbn [bind]. intros H. injection H as <-. cbn [projs set_projs projs_shapes].
    rewrite (load_attr_shapes _ _ _ _ H1). auto.
  - destruct (load_attr loaded "q_proj" q) as [q'|e] eqn:H1; [|discriminate].
    cbn [bind].
    destruct (load_attr loaded "k_proj" k) as [k'|e] eqn:H2; [|discriminate].
    cbn [bind].
    destruct (load_attr loaded "v_proj" v) as [v'|e] eqn:H3; [|discriminate].
    cbn [bind].
    destruct (load_attr loaded "c_proj" c) as [c'|e] eqn:H4; [|discriminate].
    cbn [bind]. intros H. injection H as <-. cbn [projs set_projs projs_shapes].
    rewrite (load_attr_shapes _ _ _ _ H1), (load_attr_shapes _ _ _ _ H2),
            (load_attr_shapes _ _ _ _ H3), (load_attr_shapes _ _ _ _ H4).
    auto.
Qed.

(** X3: a successful [load_visual_projs] changes nothing but the values
    of the projection parameters: the variant, the shape of every
    weight and bias, the embedding table and the configuration are
    those of the head before the load. *)
Theorem load_visual_projs_keeps_frame (h h' : MaskClipHead T) (loaded : artifact T) :
  load_visual_projs h loaded = Ok h' ->
  projs_shapes (projs h') = projs_shapes (projs h) /\
  vit h' = vit h /\
  text_embeddings h' = text_embeddings h /\
  h' = set_projs h (projs h').
Proof.
  intros Hload. destruct (load_visual_projs_result h h' loaded Hload) as [Hs Hh].
  split; [exact Hs|]. split; [|split; [now rewrite Hh|exact Hh]].
  unfold vit. destruct (projs h), (projs h'); cbn in Hs; try discriminate; reflexivity.
Qed.

(** X4: the loaded projections do not depend on the values the
    parameters had before, only on their shapes; in particular loading
    the same artifact a second time changes nothing. *)
Theorem load_visual_projs_overwrites (h h' : MaskClipHead T) (loaded : artifact T) :
  load_visual_projs h loaded = Ok h' ->
  (forall p, projs_shapes p = projs_shapes (projs h) ->
     load_visual_projs (set_projs h p) loaded = Ok h') /\
  load_visual_projs h' loaded = Ok h'.
Proof.
  intros Hload.
  assert (Hgen : forall p, projs_shapes p = projs_shapes (projs h) ->
                   load_visual_projs (set_projs h p) loaded = Ok h').
  { intros p Hs. revert Hload. unfold load_visual_projs. cbn [projs set_projs].
    destruct (projs h) as [proj|q k v c]; destruct p as [proj2|q2 k2 v2 c2];
      cbn [projs_shapes] in Hs; try discriminate.
    - pose proof (f_equal (fun l => nth 0 l ([], None)) Hs) as H0. cbn in H0.
      rewrite (load_attr_depends_on_shapes loaded "proj" proj2 proj H0).
      destruct (load_attr loaded "proj" proj); [|discriminate]. cbn [bind].
      intros H. injection H as <-. reflexivity.
    - pose proof (f_equal (fun l => nth 0 l ([], None)) Hs) as Hq.
      pose proof (f_equal (fun l => nth 1 l ([], None)) Hs) as Hk.
      pose proof (f_equal (fun l => nth 2 l ([], None)) Hs) as Hv.
      pose proof (f_equal (fun l => nth 3 l ([], None)) Hs) as Hc.
      cbn in Hq, Hk, Hv, Hc.
      rewrite (load_attr_depends_on_shapes loaded "q_proj" q2 q Hq),
              (load_attr_depends_on_shapes loaded "k_proj" k2 k Hk),
              (load_attr_depends_on_shapes loaded "v_proj" v2 v Hv),
              (load_attr_depends_on_shapes loaded "c_proj" c2 c Hc).
      destruct (load_attr loaded "q_proj" q); [|discriminate]. cbn [bind].
      destruct (load_attr loaded "k_proj" k); [|discriminate]. cbn [bind].
      destruct (load_attr loaded "v_proj" v); [|discriminate]. cbn [bind].
      destruct (load_attr loaded "c_proj" c); [|discriminate]. cbn [bind].
      intros H. injection H as <-. reflexivity. }
  split; [exact Hgen|].
  destruct (load_visual_projs_result h h' loaded Hload) as (Hs & Hh).
  rewrite Hh at 1. now apply Hgen.
Qed.

End ExtraLoader.

Section ExtraConstruction.
Context {T : Type} {ST : Scalar T}.

Lemma tabulate_const {A : Type} (n : nat) (x : A) :
  tabulate n (fun _ => x) = repeat x n.
Proof.
  unfold tabulate. generalize 0. induction n as [|n IH]; intros s; [reflexivity|].
  cbn [seq map repeat]. now rewrite IH.
Qed.

Lemma broadcast_index (n i : nat) :
  i < n -> (if Nat.eqb n 1 then 0 else i) = i.
Proof.
  intros Hi. destruct (Nat.eqb n 1) eqn:E; [|reflexivity].
  apply Nat.eqb_eq in E. lia.
Qed.

Lemma load_visual_projs_depends_on_shapes (h : MaskClipHead T) (p1 p2 : Projs T)
  (loaded : artifact T) :
  projs_shapes p1 = projs_shapes p2 ->
  load_visual_projs (set_projs h p1) loaded = load_visual_projs (set_projs h p2) loaded.
Proof.
  intros Hs. unfold load_visual_projs. cbn [projs set_projs].
  destruct p1 as [a1|q1 k1 v1 c1]; destruct p2 as [a2|q2 k2 v2 c2];
    cbn [projs_shapes] in Hs; try discriminate.
  - pose proof (f_equal (fun l => nth 0 l ([], None)) Hs) as H0. cbn in H0.
    rewrite (load_attr_depends_on_shapes loaded "proj" a1 a2 H0).
    now destruct (load_attr loaded "proj" a2).
  - pose proof (f_equal (fun l => nth 0 l ([], None)) Hs) as Hq.
    pose proof (f_equal (fun l => nth 1 l ([], None)) Hs) as Hk.
    pose proof (f_equal (fun l => nth 2 l ([], None)) Hs) as Hv.
    pose proof (f_equal (fun l => nth 3 l ([], None)) Hs) as Hc.
    cbn in Hq, Hk, Hv, Hc.
    rewrite (load_attr_depends_on_shapes loaded "q_proj" q1 q2 Hq),
            (load_attr_depends_on_shapes loaded "k_proj" k1 k2 Hk),
            (load_attr_depends_on_shapes loaded "v_proj" v1 v2 Hv),
            (load_attr_depends_on_shapes loaded "c_proj" c1 c2 Hc).
    destruct (load_attr loaded "q_proj" q2); [|reflexivity]. cbn [bind].
    destruct (load_attr loaded "k_proj" k2); [|reflexivity]. cbn [bind].
    destruct (load_attr loaded "v_proj" v2); [|reflexivity]. cbn [bind].
    now destruct (load_attr loaded "c_proj" c2).
Qed.

(** Both loads, one after the other, as [__init__] and [init_weights]
    end: the outcome depends on the head only through its frame. *)
Lemma reload_depends_on_frame (h1 h2 : MaskClipHead T) (te : tensor2 T)
  (vp : artifact T) :
  same_frame h1 h2 ->
  (x <- load_text_embeddings h1 te ;; load_visual_projs x vp) =
  (x <- load_text_embeddings h2 te ;; load_visual_projs x vp).
Proof.
  intros (Hcfg & HK & HC & Hp). unfold load_text_embeddings.
  rewrite HK, HC.
  destruct ((Nat.eqb (length te) (length (text_embeddings h2)) || Nat.eqb (length te) 1) &&
            (Nat.eqb (length (hd [] te)) (length (hd [] (text_embeddings h2))) ||
             Nat.eqb (length (hd [] te)) 1)); [|reflexivity].
  cbn [bind].
  set (E := tabulate _ _).
  destruct h1 as [nc1 tc1 ch1 e1 p1 bg1 nv1 vt1 tk1 ct1 ap1 nh1 tr1].
  destruct h2 as [nc2 tc2 ch2 e2 p2 bg2 nv2 vt2 tk2 ct2 ap2 nh2 tr2].
  cbn in Hcfg, Hp. injection Hcfg as -> -> -> -> -> -> -> -> -> -> ->.
  unfold set_text_embeddings. cbn.
  apply (load_visual_projs_depends_on_shapes
           {| num_classes := nc2; text_categories := tc2; text_channels := ch2;
              text_embeddings := E; projs := p2; bg_thresh := bg2; num_vote := nv2;
              vote_thresh := vt2; topk_text := tk2; cls_thresh := ct2;
              attn_pooling := ap2; num_heads := nh2; training := tr2 |} p1 p2 vp Hp).
Qed.

Lemma load_text_embeddings_frame (h h' : MaskClipHead T) (te : tensor2 T) :
  load_text_embeddings h te = Ok h' ->
  same_frame h h' /\ projs h' = projs h /\
  wf2 (length (text_embeddings h)) (length (hd [] (text_embeddings h)))
      (text_embeddings h').
Proof.
  unfold load_text_embeddings.
  destruct (_ && _); [|discriminate]. intros H. injection H as <-.
  cbn [text_embeddings set_text_embeddings projs].
  split; [|split; [reflexivity|apply (wf2_tabulate _ _ (fun i j => _))]].
  unfold same_frame. cbn [text_embeddings set_text_embeddings projs].
  split; [reflexivity|]. split; [now rewrite length_tabulate|].
  split; [|reflexivity].
  destruct (text_embeddings h) as [|r e]; [reflexivity|].
  cbn [length hd]. unfold tabulate at 1. cbn [seq map hd]. now rewrite length_tabulate.
Qed.

Lemma same_frame_trans (h1 h2 h3 : MaskClipHead T) :
  same_frame h1 h2 -> same_frame h2 h3 -> same_frame h1 h3.
Proof.
  intros (A1 & B1 & C1 & D1) (A2 & B2 & C2 & D2).
  unfold same_frame. repeat split; congruence.
Qed.

Lemma load_visual_projs_same_frame (h h' : MaskClipHead T) (vp : artifact T) :
  load_visual_projs h vp = Ok h' -> same_frame h h'.
Proof.
  intros Hl. destruct (load_visual_projs_result h h' vp Hl) as [Hs Hh].
  unfold same_frame. rewrite Hh at 1 2 3. cbn [text_embeddings set_projs].
  repeat split; try reflexivity. now rewrite Hs.
Qed.

(** X5: when the file holds a matrix of the buffer's shape,
    [load_text_embeddings] makes the embedding table equal to the file
    and touches nothing else. *)
Theorem load_text_embeddings_copies_file (h : MaskClipHead T) (loaded : tensor2 T)
  (K Ct : nat) :
  wf2 K Ct (text_embeddings h) -> wf2 K Ct loaded -> 0 < K ->
  load_text_embeddings h loaded = Ok (set_text_embeddings h loaded).
Proof.
  intros He Hl HK. unfold load_text_embeddings.
  rewrite !(hd_nth0 _ []), (wf2_row _ _ _ 0 He HK), (wf2_row _ _ _ 0 Hl HK).
  destruct He as [HeL _]. pose proof Hl as [HlL HlF].
  rewrite HeL, HlL, !Nat.eqb_refl. cbn [orb andb]. do 2 f_equal.
  transitivity (tabulate K (fun i => nth i loaded [])).
  - apply tabulate_ext. intros i Hi.
    rewrite (broadcast_index K i Hi).
    transitivity (tabulate Ct (fun j => nth j (nth i loaded []) szero)).
    + apply tabulate_ext. intros j Hj. now rewrite (broadcast_index Ct j Hj).
    + rewrite <- (wf2_row _ _ _ i Hl Hi) at 1. apply tabulate_nth.
  - rewrite <- HlL. apply tabulate_nth.
Qed.

(** X6: whatever the file, a successful [load_text_embeddings] leaves
    the embedding table with the shape it had, and leaves the
    projections and the configuration as they were. *)
Theorem load_text_embeddings_keeps_shape (h h' : MaskClipHead T) (loaded : tensor2 T) :
  load_text_embeddings h loaded = Ok h' ->
  wf2 (length (text_embeddings h)) (length (hd [] (text_embeddings h)))
      (text_embeddings h') /\
  projs h' = projs h /\
  h' = set_text_embeddings h (text_embeddings h').
Proof.
  intros Hl. destruct (load_text_embeddings_frame h h' loaded Hl) as (_ & Hp & Hwf).
  split; [exact Hwf|]. split; [exact Hp|].
  revert Hl. unfold load_text_embeddings. destruct (_ && _); [|discriminate].
  intros H. injection H as <-. reflexivity.
Qed.

(** X7: the copy broadcasts: a file with a single row of the right
    length is accepted and that row becomes the embedding of every
    category; a file whose number of rows is neither the number of
    categories nor one is refused with RuntimeError. *)
Theorem load_text_embeddings_broadcasts (h : MaskClipHead T) (K Ct : nat) :
  wf2 K Ct (text_embeddings h) -> 0 < K ->
  (forall row, length row = Ct ->
     load_text_embeddings h [row] = Ok (set_text_embeddings h (repeat row K))) /\
  (forall loaded, length loaded <> K -> length loaded <> 1 ->
     load_text_embeddings h loaded = Err RuntimeError).
Proof.
  intros He HK. pose proof (wf2_row _ _ _ 0 He HK) as Hrow.
  destruct He as [HeL _]. split.
  - intros row Hr. unfold load_text_embeddings.
    rewrite !(hd_nth0 _ []), Hrow, HeL. cbn [length nth]. rewrite Hr.
    rewrite !Nat.eqb_refl, Bool.orb_true_r. cbn [orb andb]. do 2 f_equal.
    rewrite <- tabulate_const. apply tabulate_ext. intros i _.
    transitivity (tabulate Ct (fun j => nth j row szero)).
    + apply tabulate_ext. intros j Hj.
      rewrite (broadcast_index Ct j Hj). reflexivity.
    + rewrite <- Hr. apply tabulate_nth.
  - intros loaded H1 H2. unfold load_text_embeddings. rewrite HeL.
    rewrite (proj2 (Nat.eqb_neq _ _) H1), (proj2 (Nat.eqb_neq _ _) H2).
    reflexivity.
Qed.

(** X8: construction does not depend on the random initial values of
    the embedding buffer and of the projection convolutions: whatever
    [torch.randn] and the layers' initialisers draw, [__init__] returns
    the same head, or fails the same way. *)
Theorem init_ignores_random_initialisation (a : init_args T) (te : tensor2 T)
  (vp : artifact T) (randn1 randn2 : nat -> nat -> T)
  (rand_p1 rand_p2 : string -> string -> nat -> T) :
  __init__ a te vp randn1 rand_p1 = __init__ a te vp randn2 rand_p2.
Proof.
  unfold __init__. apply reload_depends_on_frame.
  unfold same_frame. cbn [text_embeddings set_text_embeddings set_projs projs].
  split; [reflexivity|]. split; [now rewrite !length_tabulate|]. split.
  - destruct (arg_text_categories a); [reflexivity|].
    unfold tabulate at 1 3. cbn [seq map hd]. now rewrite !length_tabulate.
  - destruct (arg_vit a); reflexivity.
Qed.

(** X9: a head that [__init__] returns has an embedding table of
    [text_categories] rows and [text_channels] columns, projection
    parameters of the shapes of its 1x1 convolutions, one vote
    threshold per vote when the threshold was given as a number, and is
    in training mode. *)
Theorem init_establishes_shapes (a : init_args T) (te : tensor2 T) (vp : artifact T)
  (randn : nat -> nat -> T) (rand_p : string -> string -> nat -> T)
  (h : MaskClipHead T) :
  __init__ a te vp randn rand_p = Ok h ->
  wf2 (arg_text_categories a) (arg_text_channels a) (text_embeddings h) /\
  projs_shapes (projs h) =
    (if arg_vit a
     then [([arg_text_channels a; arg_in_channels a; 1; 1], None)]
     else [([arg_in_channels a; arg_in_channels a; 1; 1], Some [arg_in_channels a]);
           ([arg_in_channels a; arg_in_channels a; 1; 1], Some [arg_in_channels a]);
           ([arg_in_channels a; arg_in_channels a; 1; 1], Some [arg_in_channels a]);
           ([arg_text_channels a; arg_in_channels a; 1; 1], Some [arg_text_channels a])]) /\
  vit h = arg_vit a /\
  training h = true /\
  num_classes h = arg_num_classes a /\
  (forall x, arg_vote_thresh a = ThreshScalar x ->
     vote_thresh h = repeat x (Z.to_nat (arg_num_vote a))).
Proof.
  unfold __init__. set (h0 := Build_MaskClipHead _ _ _ _ _ _ _ _ _ _ _ _ _).
  destruct (load_text_embeddings h0 te) as [h1|e] eqn:H1; [|discriminate].
  cbn [bind]. intros H2.
  destruct (load_text_embeddings_frame h0 h1 te H1) as (_ & Hp1 & Hwf).
  destruct (load_visual_projs_result h1 h vp H2) as [Hs Hh].
  assert (H1' := H1). unfold load_text_embeddings in H1'.
  destruct (_ && _); [|discriminate]. injection H1' as H1'.
  assert (Hwf' : wf2 (arg_text_categories a) (arg_text_channels a) (text_embeddings h1)).
  { rewrite <- H1'. cbn [text_embeddings set_text_embeddings].
    subst h0. cbn [text_embeddings]. rewrite length_tabulate.
    destruct (arg_text_categories a) as [|K].
    - split; [reflexivity|constructor].
    - rewrite (hd_nth0 _ []), nth_tabulate by lia. rewrite length_tabulate.
      apply (wf2_tabulate _ _ (fun i j => _)). }
  assert (He : text_embeddings h = text_embeddings h1) by now rewrite Hh.
  assert (Ht : training h = true).
  { rewrite Hh, <- H1'. reflexivity. }
  assert (Hn : num_classes h = arg_num_classes a).
  { rewrite Hh, <- H1'. reflexivity. }
  assert (Hvt : vote_thresh h = init_vote_thresh (arg_vote_thresh a) (arg_num_vote a)).
  { rewrite Hh, <- H1'. reflexivity. }
  assert (Hsh : projs_shapes (projs h) = projs_shapes (projs h0)) by now rewrite Hs, Hp1.
  rewrite He. split; [exact Hwf'|]. split; [|split; [|split; [exact Ht|split; [exact Hn|]]]].
  - rewrite Hsh. subst h0. cbn [projs]. destruct (arg_vit a); reflexivity.
  - unfold vit. subst h0. cbn [projs] in Hsh.
    destruct (arg_vit a), (projs h); cbn in Hsh; try discriminate; reflexivity.
  - intros x Hx. now rewrite Hvt, Hx.
Qed.

(** X10: re-initialisation reloads the frozen state: if the base
    class's [init_weights] changes at most the values of the embedding
    table and of the projection parameters, then [init_weights] with
    the files [__init__] read returns the head [__init__] returned. *)
Theorem init_weights_restores (a : init_args T) (te : tensor2 T) (vp : artifact T)
  (randn : nat -> nat -> T) (rand_p : string -> string -> nat -> T)
  (super_init_weights : MaskClipHead T -> res (MaskClipHead T))
  (h h0 : MaskClipHead T) :
  __init__ a te vp randn rand_p = Ok h ->
  super_init_weights h = Ok h0 -> same_frame h h0 ->
  init_weights super_init_weights h te vp = Ok h.
Proof.
  intros Hinit Hsuper Hframe. unfold init_weights. rewrite Hsuper. cbn [bind].
  unfold __init__ in Hinit.
  set (hi := Build_MaskClipHead _ _ _ _ _ _ _ _ _ _ _ _ _) in Hinit.
  assert (Hfr : same_frame hi h).
  { destruct (load_text_embeddings hi te) as [h1|e] eqn:H1; [|discriminate].
    cbn [bind] in Hinit.
    destruct (load_text_embeddings_frame hi h1 te H1) as (F1 & _ & _).
    exact (same_frame_trans hi h1 h F1 (load_visual_projs_same_frame h1 h vp Hinit)). }
  rewrite <- Hinit.
  change (h1 <- load_text_embeddings h0 te;; load_visual_projs h1 vp)
    with (x <- load_text_embeddings h0 te;; load_visual_projs x vp).
  symmetry. apply reload_depends_on_frame.
  exact (same_frame_trans hi h h0 Hfr Hframe).
Qed.

End ExtraConstruction.

(** * Further properties of the refinement and of the forward pass *)

Section ExtraRefine.
Context {T : Type} {ST : Scalar T} {SE : ScalarExp T}.

Lemma project_cls_token (mha : list (list (list T)) -> Z -> list (list T) ->
    list (list T) -> list (list T) -> list T -> list (list T) -> list T -> bool ->
    res (list (list (list T))))
  (h : MaskClipHead T) (x : features T) (feat : tensor4 T)
  (k : option (tensor3 T)) (tok : tensor2 T) :
  project mha h x = Ok (feat, k, Some tok) ->
  vit h = true /\
  ((exists x0 tok0, x = WithClsToken x0 tok0) \/
   (exists x0 tok0 q0 k0 v0, x = WithClsTokenQKV x0 tok0 q0 k0 v0)).
Proof.
  unfold project, vit. destruct (projs h) as [proj|q_proj k_proj v_proj c_proj].
  - destruct x as [x|x q k0 v|x tok0|x tok0 q k0 v].
    + destruct (conv_forward proj x); cbn [bind]; discriminate.
    + destruct (conv_forward proj v); cbn [bind]; discriminate.
    + intros _. split; [reflexivity|]. left. now exists x, tok0.
    + intros _. split; [reflexivity|]. right. now exists x, tok0, q, k0, v.
  - destruct x as [x|x q k0 v|x tok0|x tok0 q k0 v].
    + destruct (attn_pooling h).
      * destruct (shape4 x) as [[[N C] H] W].
        repeat match goal with
               | |- context [bind ?m _] =>
                   first [destruct m as [?|?] | fail 2]; cbn [bind]; try discriminate
               end.
      * repeat match goal with
               | |- context [bind ?m _] =>
                   first [destruct m as [?|?] | fail 2]; cbn [bind]; try discriminate
               end.
    + destruct (attn_pooling h); discriminate.
    + destruct (attn_pooling h); discriminate.
    + destruct (attn_pooling h); discriminate.
Qed.

Lemma refine_topk_without_cls_token (h : MaskClipHead T) (out : tensor4 T)
  (k : option (tensor3 T)) :
  (0 < topk_text h)%Z ->
  refine_output h out k None = Err AssertionError.
Proof.
  intros Hk. unfold refine_output. now rewrite gate_stage_topk by assumption.
Qed.

Lemma forward_topk_success (Inputs : Type)
  (_transform_inputs : Inputs -> res (features T))
  (mha : list (list (list T)) -> Z -> list (list T) -> list (list T) ->
         list (list T) -> list T -> list (list T) -> list T -> bool ->
         res (list (list (list T))))
  (h : MaskClipHead T) (inputs : Inputs) (out : tensor4 T) :
  training h = false -> (0 < topk_text h)%Z ->
  forward _transform_inputs mha h inputs = Ok out ->
  vit h = true /\
  ((exists x tok, _transform_inputs inputs = Ok (WithClsToken x tok)) \/
   (exists x tok q k v,
      _transform_inputs inputs = Ok (WithClsTokenQKV x tok q k v))).
Proof.
  intros Htr Hk. unfold forward. rewrite Htr. cbn [negb].
  destruct (_transform_inputs inputs) as [x|e]; [|discriminate]. cbn [bind].
  destruct (project mha h x) as [[[feat k] [tok|]]|e] eqn:Hp; [| |discriminate].
  - intros _.
    destruct (project_cls_token mha h x feat k tok Hp)
      as (Hv & [(x0 & tok0 & ->)|(x0 & tok0 & q0 & k0 & v0 & ->)]).
    + split; [exact Hv|]. left. now exists x0, tok0.
    + split; [exact Hv|]. right. now exists x0, tok0, q0, k0, v0.
  - cbn [bind]. destruct (cls_seg h feat); [|discriminate]. cbn [bind].
    now rewrite refine_topk_without_cls_token by assumption.
Qed.

(** X11: in evaluation mode with [topk_text > 0], a forward pass can
    only return when the head is a ViT head and its input carries a
    class token, as [[x, cls_token]] or as [[[x, cls_token], q, k, v]]:
    a convolutional head, and a ViT head given a bare feature map or
    [[x, q, k, v]], always raise. *)
Theorem forward_topk_needs_cls_token (Inputs : Type)
  (_transform_inputs : Inputs -> res (features T))
  (mha : list (list (list T)) -> Z -> list (list T) -> list (list T) ->
         list (list T) -> list T -> list (list T) -> list T -> bool ->
         res (list (list (list T))))
  (h : MaskClipHead T) (inputs : Inputs) :
  training h = false -> (0 < topk_text h)%Z ->
  vit h = false \/
  (exists x, _transform_inputs inputs = Ok (Single x)) \/
  (exists x q k v, _transform_inputs inputs = Ok (WithQKV x q k v)) ->
  exists e, forward _transform_inputs mha h inputs = Err e.
Proof.
  intros Htr Hk Hno.
  destruct (forward _transform_inputs mha h inputs) as [out|e] eqn:Hf; [|now exists e].
  destruct (forward_topk_success Inputs _transform_inputs mha h inputs out Htr Hk Hf)
    as (Hv & [(x & tok & Hx)|(x & tok & q & k & v & Hx)]);
    destruct Hno as [Hno|[(x0 & Hno)|(x0 & q0 & k0 & v0 & Hno)]]; congruence.
Qed.

(** X12: with the refinement options at their defaults (no top-k, no
    confidence threshold, no votes, no surplus categories, no
    background threshold) the refinement is the identity, so [forward]
    returns the classifier's logits in evaluation mode as in training
    mode. *)
Theorem forward_default_options (Inputs : Type)
  (_transform_inputs : Inputs -> res (features T))
  (mha : list (list (list T)) -> Z -> list (list T) -> list (list T) ->
         list (list T) -> list T -> list (list T) -> list T -> bool ->
         res (list (list (list T))))
  (h : MaskClipHead T) (inputs : Inputs) :
  (topk_text h <= 0)%Z -> sltb szero (cls_thresh h) = false ->
  (num_vote h <= 0)%Z ->
  text_categories h <= num_classes h -> sltb szero (bg_thresh h) = false ->
  (forall out k tok, refine_output h out k tok = Ok out) /\
  forward _transform_inputs mha h inputs =
  (x <- _transform_inputs inputs ;;
   p <- project mha h x ;;
   cls_seg h (fst (fst p))).
Proof.
  intros Hk Hc Hv Hcat Hbg.
  assert (Hid : forall out k tok, refine_output h out k tok = Ok out).
  { intros out k tok. unfold refine_output.
    rewrite gate_stage_off by assumption. cbn [bind].
    rewrite vote_stage_off by now right. cbn [bind fst snd].
    now apply bg_stage_off. }
  split; [exact Hid|]. unfold forward.
  destruct (_transform_inputs inputs) as [x|e]; [|reflexivity]. cbn [bind].
  destruct (project mha h x) as [[[feat k] tok]|e]; [|reflexivity]. cbn [bind fst].
  destruct (cls_seg h feat) as [out|e]; [|reflexivity]. cbn [bind].
  destruct (training h); cbn [negb]; [reflexivity|apply Hid].
Qed.

(** X13: with no surplus categories and a background threshold, when
    gating and voting are inactive, the refinement returns one channel
    more than the classifier: channel 0 is the threshold at every
    pixel and channel [c + 1] is channel [c] of the sharpened softmax
    of the logits. *)
Theorem background_from_threshold (h : MaskClipHead T) (out : tensor4 T)
  (k : option (tensor3 T)) (tok : option (tensor2 T)) (N C H W : nat) :
  (topk_text h <= 0)%Z -> sltb szero (cls_thresh h) = false ->
  k = None \/ (num_vote h <= 0)%Z ->
  text_categories h <= num_classes h -> sltb szero (bg_thresh h) = true ->
  wf4 N C H W out -> C <= num_classes h -> 0 < N -> 0 < C -> 0 < H ->
  exists r,
    refine_output h out k tok = Ok r /\
    wf4 N (C + 1) H W r /\
    forall n hh w, n < N -> hh < H -> w < W ->
      at4 r n 0 hh w = bg_thresh h /\
      forall c, c < C -> at4 r n (S c) hh w = at4 (sharpen out) n c hh w.
Proof.
  intros Hk Hc Hv Hcat Hbg Hout HCn HN HC HH. unfold refine_output.
  rewrite gate_stage_off by assumption. cbn [bind].
  rewrite vote_stage_off by assumption. cbn [bind fst snd].
  unfold bg_stage. rewrite (proj2 (Nat.ltb_ge _ _) Hcat), Hbg.
  pose proof (sharpen_wf N C H W out Hout HC HH) as Hsh.
  rewrite (shape4_wf _ _ _ _ _ Hsh HN HC HH). cbn [bind fst snd].
  assert (Hfirst : map (firstn (num_classes h)) (sharpen out) = sharpen out).
  { rewrite <- (map_id (sharpen out)) at 2. apply map_ext_in. intros s Hs.
    apply firstn_all2. destruct Hsh as [_ HF]. rewrite Forall_forall in HF.
    destruct (HF s Hs) as [HsL _]. lia. }
  rewrite Hfirst.
  pose proof (new_full_wf N 1 H W (bg_thresh h)) as Hbgwf.
  assert (Hnth : forall n, n < N ->
            nth n (cat_dim1 (new_full N 1 H W (bg_thresh h)) (sharpen out)) [] =
            repeat (repeat (bg_thresh h) W) H :: nth n (sharpen out) []).
  { intros n Hn. unfold cat_dim1.
    destruct Hbgwf as [HbL _], Hsh as [HsL _].
    rewrite (nth_zipWith_lt _ _ _ _ [] []) by lia.
    unfold new_full. rewrite nth_repeat_lt, (proj2 (Nat.ltb_lt _ _) Hn). reflexivity. }
  eexists. split; [reflexivity|]. split.
  - apply wf4_intro.
    + unfold cat_dim1. destruct Hbgwf as [HbL _], Hsh as [HsL _].
      rewrite length_zipWith. lia.
    + intros n Hn. rewrite Hnth by assumption.
      destruct (wf4_nth _ _ _ _ _ n Hsh Hn) as [HsL HsF].
      split; [cbn [length]; lia|]. constructor; [apply wf2_repeat|exact HsF].
  - intros n hh w Hn Hhh Hw. split.
    + unfold at4. rewrite Hnth by assumption. unfold at3, at2, at1. cbn [nth].
      rewrite nth_repeat_lt, (proj2 (Nat.ltb_lt _ _) Hhh).
      now rewrite nth_repeat_lt, (proj2 (Nat.ltb_lt _ _) Hw).
    + intros c Hc'. unfold at4. rewrite Hnth by assumption. reflexivity.
Qed.

(** X14: asking for more categories than there are is an error: with
    [topk_text] above the number of text categories and a class token
    of the right width, the refinement raises RuntimeError. *)
Theorem refine_topk_too_many (h : MaskClipHead T) (out : tensor4 T)
  (k : option (tensor3 T)) (tok : tensor2 T) (N K Ct : nat) :
  wf2 K Ct (text_embeddings h) -> wf2 N Ct tok ->
  0 < N -> 0 < K -> 0 < Ct -> K < Z.to_nat (topk_text h) ->
  refine_output h out k (Some tok) = Err RuntimeError.
Proof.
  intros Hemb Htok HN HK HCt Hbig. unfold refine_output.
  rewrite gate_stage_topk by lia. unfold topk_gate.
  rewrite (matmul_Ok N Ct K tok (transpose2 (text_embeddings h))); try assumption.
  2:{ now apply transpose2_wf. }
  cbn [bind]. destruct Htok as [HtokL _].
  destruct tok as [|r tok]; [simpl in HtokL; lia|].
  cbn [map mapM]. unfold topk at 1. rewrite length_tabulate.
  rewrite (proj2 (Nat.leb_gt _ _)) by lia. reflexivity.
Qed.

End ExtraRefine.

Section ExtraStages.
Context {T : Type} {ST : Scalar T} {SE : ScalarExp T}.

Lemma nth_set_nth {A : Type} (j n : nat) (v d : A) (t : list A) :
  j < length t ->
  nth n (set_nth j v t) d = if Nat.eqb n j then v else nth n t d.
Proof.
  intros Hj. unfold set_nth.
  assert (Hf : length (firstn j t) = j) by (rewrite length_firstn; lia).
  destruct (Nat.eqb n j) eqn:E.
  - apply Nat.eqb_eq in E. subst n.
    rewrite app_nth2 by lia. rewrite Hf, Nat.sub_diag. reflexivity.
  - apply Nat.eqb_neq in E. destruct (Nat.lt_ge_cases n j) as [Hlt|Hge].
    + rewrite app_nth1 by lia. rewrite nth_firstn.
      now rewrite (proj2 (Nat.ltb_lt _ _) Hlt).
    + rewrite app_nth2 by lia. rewrite Hf.
      destruct (n - j) as [|m] eqn:Hm; [lia|]. cbn [nth].
      rewrite nth_skipn. f_equal. lia.
Qed.

Lemma mapM_combine {A B : Type} (f : A -> res B) (l : list A) (ys : list B) :
  mapM f l = Ok ys -> Forall (fun p => f (fst p) = Ok (snd p)) (combine l ys).
Proof.
  revert ys. induction l as [|a l IH]; intros ys HM; cbn [mapM] in HM.
  - injection HM as <-. constructor.
  - destruct (f a) as [b|e] eqn:Hfa; [|discriminate]. cbn [bind] in HM.
    destruct (mapM f l) as [bs|e]; [|discriminate]. cbn [bind] in HM.
    injection HM as <-. cbn [combine]. constructor; [exact Hfa|now apply IH].
Qed.

Lemma index_put_fold_samples (out : tensor4 T) (Zs : tensor3 T)
  (ps : list (nat * tensor3 T)) (t t' : tensor4 T) :
  Forall (fun p => nth_error out (fst p) = Some (snd p)) ps ->
  length t = length out ->
  (forall n, n < length out -> nth n t [] = nth n out [] \/ nth n t [] = Zs) ->
  fold_left (fun acc jv =>
               t0 <- acc ;;
               if Nat.ltb (fst jv) (length t0)
               then Ok (set_nth (fst jv) (snd jv) t0)
               else Err IndexError) ps (Ok t) = Ok t' ->
  length t' = length out /\
  forall n, n < length out -> nth n t' [] = nth n out [] \/ nth n t' [] = Zs.
Proof.
  revert t. induction ps as [|[j v] ps IH]; intros t HF HL Hinv Hfold.
  - cbn in Hfold. injection Hfold as <-. now split.
  - inversion HF as [|? ? Hjv HF']; subst. cbn [fst snd] in Hjv.
    cbn [fold_left bind fst snd] in Hfold.
    destruct (Nat.ltb j (length t)) eqn:Hj.
    + apply Nat.ltb_lt in Hj. apply (IH (set_nth j v t)); try assumption.
      * unfold set_nth. rewrite length_app, length_firstn. cbn [length].
        rewrite length_skipn. lia.
      * intros n Hn. rewrite nth_set_nth by assumption.
        destruct (Nat.eqb n j) eqn:E; [|now apply Hinv].
        apply Nat.eqb_eq in E. subst n. left.
        symmetry. now apply nth_error_nth.
    + exfalso. clear -Hfold. induction ps as [|p ps IHp]; [discriminate|].
      cbn [fold_left bind] in Hfold. now apply IHp.
Qed.

(** X15: what top-k gating returns, when it returns: every sample of
    the result is either the corresponding sample of the logit map,
    whole, or filled with -100, whole; no sample has some channels kept
    and others suppressed. *)
Theorem topk_gate_copies_whole_samples (h : MaskClipHead T) (out g : tensor4 T)
  (tok : option (tensor2 T)) (N C H W : nat) :
  wf4 N C H W out -> 0 < N -> 0 < C -> 0 < H ->
  topk_gate h out tok = Ok g ->
  length g = N /\
  forall n, n < N ->
    nth n g [] = nth n out [] \/
    nth n g [] = repeat (repeat (repeat (sconst (-100)) W) H) C.
Proof.
  intros Hout HN HC HH Hg. unfold topk_gate in Hg.
  destruct tok as [tok|]; [|discriminate].
  destruct (matmul tok _) as [cls_pred|e]; [|discriminate]. cbn [bind] in Hg.
  destruct (mapM _ cls_pred) as [sel|e]; [|discriminate]. cbn [bind] in Hg.
  rewrite (shape4_wf _ _ _ _ _ Hout HN HC HH) in Hg.
  destruct (index0 out _) as [vals|e] eqn:Hvals; [|discriminate]. cbn [bind] in Hg.
  unfold index_put0 in Hg. unfold index0 in Hvals.
  pose proof (mapM_combine _ _ _ Hvals) as Hpairs.
  assert (HoutL : length out = N) by now destruct Hout.
  rewrite <- HoutL.
  eapply (index_put_fold_samples out _ _ (new_full N C H W (sconst (-100))) g).
  - eapply Forall_impl; [|exact Hpairs]. intros [j v] Hjv. cbn [fst snd] in *.
    destruct (nth_error out j); [|discriminate]. now injection Hjv as <-.
  - unfold new_full. rewrite repeat_length. lia.
  - intros n Hn. right. unfold new_full.
    rewrite nth_repeat_lt, (proj2 (Nat.ltb_lt n N)) by lia. reflexivity.
  - exact Hg.
Qed.

Lemma normalized_feat_wf (N C H W : nat) (feat : tensor4 T) :
  wf4 N C H W feat -> 0 < N -> 0 < C -> 0 < H ->
  wf4 N C H W (div_bcast_dim1 feat (norm_dim1 feat)).
Proof.
  intros Hwf HN HC HH. apply wf4_intro.
  - unfold div_bcast_dim1, norm_dim1.
    rewrite (shape4_wf _ _ _ _ _ Hwf HN HC HH).
    destruct Hwf as [HL _]. rewrite length_zipWith, length_map. lia.
  - intros n Hn. rewrite (div_bcast_norm_nth _ _ _ _ _ _ Hwf HN HC HH Hn).
    apply normalized_sample_wf. now apply (wf4_nth _ _ _ _ _ _ Hwf).
Qed.

(** X16: the classifier checks the channel count: a feature map whose
    number of channels differs from the width of the embedding table is
    refused with RuntimeError. *)
Theorem cls_seg_channel_mismatch (h : MaskClipHead T) (feat : tensor4 T)
  (N C H W K Ct : nat) :
  wf4 N C H W feat -> wf2 K Ct (text_embeddings h) ->
  0 < N -> 0 < C -> 0 < H -> 0 < K ->
  C <> Ct ->
  cls_seg h feat = Err RuntimeError.
Proof.
  intros Hwf Hemb HN HC HH HK Hne. unfold cls_seg, conv2d.
  rewrite (shape4_wf _ _ _ _ _ (normalized_feat_wf N C H W feat Hwf HN HC HH) HN HC HH).
  rewrite (hd_nth0 _ []), (wf2_row _ _ _ 0 Hemb HK).
  now rewrite (proj2 (Nat.eqb_neq _ _) Hne).
Qed.

Lemma vote_fold_Err (h : MaskClipHead T) (attn : tensor3 T) (idx : list nat) (e : pyerr) :
  fold_left (fun acc i => o <- acc ;; vote_step h attn o i) idx (Err e) = Err e.
Proof. induction idx as [|i idx IH]; [reflexivity|]. cbn [fold_left bind]. exact IH. Qed.

Lemma vote_step_progress (h : MaskClipHead T) (attn o : tensor3 T) (N L C i : nat) :
  wf3 N L L attn -> wf3 N L C o -> 0 < N -> 0 < L -> 0 < C ->
  0 < length (vote_thresh h) ->
  (i < length (vote_thresh h) -> exists o', vote_step h attn o i = Ok o') /\
  (length (vote_thresh h) <= i -> vote_step h attn o i = Err IndexError).
Proof.
  intros Hattn Ho HN HL HC Hlen. unfold vote_step.
  rewrite (proj2 (Nat.ltb_lt _ _) Hlen).
  destruct (bmm_wf N L L C attn o Hattn Ho HN HL HL) as (vo & -> & Hvo).
  cbn [bind]. rewrite (shape3_wf _ _ _ _ Ho HN HL).
  assert (Hprod : Nat.eqb (N * L * C) 0 = false).
  { apply Nat.eqb_neq. destruct N, L, C; simpl; lia. }
  rewrite Hprod.
  pose proof (shape3_wf _ _ _ _ Hvo HN HL) as Hs. unfold shape3 in Hs.
  injection Hs as -> -> ->. rewrite shape_eqb_refl. split.
  - intros Hi. destruct (nth_error (vote_thresh h) i) as [thr|] eqn:Hthr.
    + cbn [bind]. eauto.
    + apply nth_error_None in Hthr. lia.
  - intros Hi. now rewrite (proj2 (nth_error_None _ _) Hi).
Qed.

Lemma vote_loop_short_list (h : MaskClipHead T) (attn o : tensor3 T) (N L C : nat)
  (idx : list nat) :
  wf3 N L L attn -> wf3 N L C o -> 0 < N -> 0 < L -> 0 < C ->
  0 < length (vote_thresh h) ->
  Exists (fun i => length (vote_thresh h) <= i) idx ->
  fold_left (fun acc i => o0 <- acc ;; vote_step h attn o0 i) idx (Ok o) = Err IndexError.
Proof.
  intros Hattn Ho HN HL HC Hlen. revert o Ho.
  induction idx as [|i idx IH]; intros o Ho HE; [inversion HE|].
  cbn [fold_left bind].
  destruct (vote_step_progress h attn o N L C i Hattn Ho HN HL HC Hlen) as [Hok Herr].
  destruct (Nat.lt_ge_cases i (length (vote_thresh h))) as [Hi|Hi].
  - destruct (Hok Hi) as [o' Ho']. rewrite Ho'.
    apply IH.
    + now apply (vote_step_wf h attn o o' N L C i).
    + inversion HE as [? ? Hbad|]; subst; [lia|assumption].
  - rewrite (Herr Hi). apply vote_fold_Err.
Qed.

(** X17: a list of vote thresholds that is not empty but shorter than
    [num_vote] runs out: the voting stage raises IndexError (at the
    iteration whose number is the length of the list). *)
Theorem vote_thresh_list_too_short (h : MaskClipHead T) (out : tensor4 T)
  (flag : bool) (k : tensor3 T) (N C H W Ck : nat) :
  wf4 N C H W out -> wf3 N (H * W) Ck k ->
  0 < N -> 0 < C -> 0 < H -> 0 < W -> 0 < Ck ->
  0 < length (vote_thresh h) -> length (vote_thresh h) < Z.to_nat (num_vote h) ->
  vote_stage h out flag (Some k) = Err IndexError.
Proof.
  intros Hout Hk HN HC HH HW HCk Hlen Hshort. unfold vote_stage.
  rewrite (proj2 (Z.ltb_lt 0 (num_vote h))) by lia.
  set (P := if flag then out else sharpen out).
  assert (HP : wf4 N C H W P).
  { unfold P. destruct flag; [exact Hout|now apply sharpen_wf]. }
  rewrite (shape4_wf _ _ _ _ _ HP HN HC HH).
  assert (HL : 0 < H * W) by nia.
  destruct (affinity_wf N (H * W) Ck k Hk HN HL HCk) as (attn & -> & Hattn).
  cbn [bind].
  rewrite (vote_loop_short_list h attn _ N (H * W) C); try assumption; [reflexivity| |].
  - apply map_transpose2_wf; [now apply flatten_hw_wf|assumption].
  - apply Exists_exists. exists (length (vote_thresh h)). split; [|lia].
    apply in_seq. lia.
Qed.

End ExtraStages.

(** * Further properties over the reals *)

Section ExtraReal.
Local Open Scope R_scope.

Lemma tensor4_ext (N C H W : nat) (a b : tensor4 R) :
  wf4 N C H W a -> wf4 N C H W b ->
  (forall n c h w, (n < N)%nat -> (c < C)%nat -> (h < H)%nat -> (w < W)%nat ->
     at4 a n c h w = at4 b n c h w) ->
  a = b.
Proof.
  intros Ha Hb Heq.
  apply (nth_ext _ _ [] []); [destruct Ha, Hb; lia|].
  intros n Hn. assert (Hn' : (n < N)%nat) by (destruct Ha; lia).
  pose proof (wf4_nth _ _ _ _ _ n Ha Hn') as Hsa.
  pose proof (wf4_nth _ _ _ _ _ n Hb Hn') as Hsb.
  apply (nth_ext _ _ [] []); [destruct Hsa, Hsb; lia|].
  intros c Hc. assert (Hc' : (c < C)%nat) by (destruct Hsa; lia).
  pose proof (wf3_nth _ _ _ _ c Hsa Hc') as Hca.
  pose proof (wf3_nth _ _ _ _ c Hsb Hc') as Hcb.
  apply (nth_ext _ _ [] []); [destruct Hca, Hcb; lia|].
  intros h Hh. assert (Hh' : (h < H)%nat) by (destruct Hca; lia).
  pose proof (wf2_row _ _ _ h Hca Hh') as Hra.
  pose proof (wf2_row _ _ _ h Hcb Hh') as Hrb.
  apply (nth_ext _ _ szero szero); [lia|].
  intros w Hw. apply (Heq n c h w); try assumption. lia.
Qed.

Lemma Rsum_squares_scaled (c : R) (v : list R) (acc : R) :
  fold_left Rplus (map (fun x => x * x) (map (Rmult c) v)) (c * c * acc) =
  c * c * fold_left Rplus (map (fun x => x * x) v) acc.
Proof.
  revert acc. induction v as [|x v IH]; intros acc; [reflexivity|].
  cbn [map fold_left].
  replace (c * c * acc + c * x * (c * x)) with (c * c * (acc + x * x)) by ring.
  apply IH.
Qed.

Lemma Rsum_squares_nonneg (v : list R) (acc : R) :
  0 <= acc -> 0 <= fold_left Rplus (map (fun x => x * x) v) acc.
Proof.
  revert acc. induction v as [|x v IH]; intros acc Hacc; [exact Hacc|].
  cbn [map fold_left]. apply IH. nra.
Qed.

Lemma norm2_scaled (c : R) (v : list R) :
  0 <= c -> norm2 (map (Rmult c) v) = c * norm2 v.
Proof.
  intros Hc. unfold norm2, sum_list.
  cbn [ssqrt smul sadd Scalar_R]. unfold szero. cbn [sconst Scalar_R].
  replace 0 with (c * c * 0) at 1 by ring.
  rewrite Rsum_squares_scaled.
  rewrite sqrt_mult; [|nra|apply Rsum_squares_nonneg; lra].
  now rewrite sqrt_square.
Qed.

(** X18: over the reals the logits depend only on the direction of
    the feature vectors: multiplying the feature map by a positive
    number does not change the output of [cls_seg], as long as no pixel
    has a feature vector of norm zero. *)
Theorem cls_seg_scale_invariant (h : MaskClipHead R) (feat : tensor4 R)
  (N H W : nat) (c : R) :
  wf4 N (text_channels h) H W feat ->
  wf2 (text_categories h) (text_channels h) (text_embeddings h) ->
  (0 < N)%nat -> (0 < text_channels h)%nat -> (0 < H)%nat ->
  (0 < text_categories h)%nat ->
  0 < c ->
  (forall n hh w, (n < N)%nat -> (hh < H)%nat -> (w < W)%nat ->
     norm2 (pixel (nth n feat []) hh w) <> 0) ->
  cls_seg h (map4 (Rmult c) feat) = cls_seg h feat.
Proof.
  intros Hfeat Hemb HN HC HH HK Hc Hnz.
  pose proof (wf4_map4 (Rmult c) _ _ _ _ feat Hfeat) as Hfeat'.
  destruct (cls_seg_pointwise h feat N H W Hfeat Hemb HN HC HH HK)
    as (o1 & -> & Hwf1 & Hpt1).
  destruct (cls_seg_pointwise h _ N H W Hfeat' Hemb HN HC HH HK)
    as (o2 & -> & Hwf2 & Hpt2).
  f_equal. apply (tensor4_ext N (text_categories h) H W); try assumption.
  intros n k hh w Hn Hk Hhh Hw.
  rewrite Hpt1, Hpt2 by assumption. f_equal.
  pose proof (wf4_nth _ _ _ _ _ n Hfeat Hn) as Hs.
  assert (Hpix : pixel (nth n (map4 (Rmult c) feat) []) hh w =
                 map (Rmult c) (pixel (nth n feat []) hh w)).
  { unfold map4. destruct Hfeat as [HL _].
    rewrite (nth_map_lt _ _ _ []) by lia.
    now apply (pixel_map3 _ (text_channels h) H W). }
  rewrite Hpix, norm2_scaled by lra. rewrite map_map.
  apply map_ext. intros x. cbn [sdiv Scalar_R].
  specialize (Hnz n hh w Hn Hhh Hw). field. split; [exact Hnz|lra].
Qed.

Lemma Rsum_divided (z : R) (l : list R) (acc : R) :
  fold_left Rplus (map (fun a => a / z) l) (acc / z) = fold_left Rplus l acc / z.
Proof.
  revert acc. induction l as [|x l IH]; intros acc; [reflexivity|].
  cbn [map fold_left].
  replace (acc / z + x / z) with ((acc + x) / z) by (unfold Rdiv; ring).
  apply IH.
Qed.

Lemma softmax_vec_sums_to_one (v : list R) :
  v <> [] -> sum_list (softmax_vec v) = 1.
Proof.
  intros Hne. unfold softmax_vec, sum_list.
  cbn [sadd sdiv sexp Scalar_R ScalarExp_R]. unfold szero. cbn [sconst Scalar_R].
  set (z := fold_left Rplus (map exp v) 0).
  assert (Hz : 0 < z).
  { apply Rsum_pos; [lra| |destruct v; [congruence|discriminate]].
    apply Forall_map, Forall_forall. intros x _. apply exp_pos. }
  replace 0 with (0 / z) at 1 by (unfold Rdiv; ring).
  rewrite Rsum_divided. fold z. field. lra.
Qed.

Lemma pixel_of_sharpen (N C H W : nat) (out : tensor4 R) (n hh w : nat) :
  wf4 N C H W out -> (0 < C)%nat -> (n < N)%nat -> (hh < H)%nat -> (w < W)%nat ->
  pixel (nth n (sharpen out) []) hh w =
  softmax_vec (map (fun a => smul a (sconst 100)) (pixel (nth n out []) hh w)).
Proof.
  intros Hout HC Hn Hhh Hw.
  rewrite (sharpen_nth N C H W) by (try assumption; lia).
  set (v := map _ (pixel (nth n out []) hh w)).
  assert (Hlen : length (softmax_vec v) = C).
  { rewrite length_softmax_vec. unfold v. rewrite length_map, length_pixel.
    now destruct (wf4_nth _ _ _ _ _ n Hout Hn). }
  unfold pixel at 1, tabulate at 1. rewrite map_map.
  rewrite <- (tabulate_nth (softmax_vec v) szero), Hlen.
  apply map_ext_in. intros c Hc. apply in_seq in Hc.
  unfold at2, at1. now rewrite !nth_tabulate by (try assumption; lia).
Qed.

(** X19: over the reals the sharpened softmax of a logit map is, at
    every pixel, a probability distribution over the channels: every
    value is positive and the values sum to one. *)
Theorem sharpen_is_distribution (out : tensor4 R) (N C H W : nat) :
  wf4 N C H W out -> (0 < C)%nat -> (0 < H)%nat ->
  wf4 N C H W (sharpen out) /\
  forall n hh w, (n < N)%nat -> (hh < H)%nat -> (w < W)%nat ->
    (forall c, (c < C)%nat -> 0 < at4 (sharpen out) n c hh w) /\
    sum_list (pixel (nth n (sharpen out) []) hh w) = 1.
Proof.
  intros Hout HC HH. split; [now apply sharpen_wf|].
  intros n hh w Hn Hhh Hw.
  assert (HsL : length (nth n out []) = C) by now destruct (wf4_nth _ _ _ _ _ n Hout Hn).
  split.
  - intros c Hc. rewrite (at4_sharpen N C H W) by assumption.
    apply softmax_vec_pos. rewrite length_map, length_pixel. lia.
  - rewrite (pixel_of_sharpen N C H W) by assumption.
    apply softmax_vec_sums_to_one.
    intros Hnil. apply (f_equal (@length R)) in Hnil.
    rewrite length_map, length_pixel in Hnil. simpl in Hnil. lia.
Qed.

End ExtraReal.

(** * The forward pass end to end *)

Section ExtraForward.
Context {T : Type} {ST : Scalar T} {SE : ScalarExp T}.

Lemma weight_matrix_wf (m : Conv2d T) (cin cout : nat) :
  conv_fits m cin cout ->
  exists Wm, weight_matrix (weight m) = Ok Wm /\ wf2 cout cin Wm /\
    forall o, o < cout -> nth o Wm [] = firstn cin (skipn (o * cin) (data (weight m))).
Proof.
  intros [Hs Hd]. unfold weight_matrix. rewrite Hs.
  eexists. split; [reflexivity|]. split.
  - apply wf2_intro; [apply length_tabulate|].
    intros o Ho. rewrite nth_tabulate by assumption.
    rewrite length_firstn, length_skipn, Hd. nia.
  - intros o Ho. now rewrite nth_tabulate by assumption.
Qed.

Lemma conv2d_wf (x : tensor4 T) (Wm : tensor2 T) (b : option (list T))
  (N cin cout H W : nat) :
  wf4 N cin H W x -> wf2 cout cin Wm ->
  0 < N -> 0 < cin -> 0 < H -> 0 < cout ->
  exists y, conv2d x Wm b = Ok y /\ wf4 N cout H W y /\
    forall n o hh w, n < N -> o < cout -> hh < H -> w < W ->
      at4 y n o hh w =
      let acc := dot (pixel (nth n x []) hh w) (nth o Wm []) in
      match b with Some b0 => sadd acc (at1 b0 o) | None => acc end.
Proof.
  intros Hx HW HN Hcin HH Hcout. unfold conv2d.
  rewrite (shape4_wf _ _ _ _ _ Hx HN Hcin HH).
  rewrite (hd_nth0 _ []), (wf2_row _ _ _ 0 HW Hcout), Nat.eqb_refl.
  destruct HW as [HWL _]. rewrite HWL. destruct Hx as [HxL _].
  eexists. split; [reflexivity|]. split.
  - apply wf4_intro; [now rewrite length_map|].
    intros n Hn. rewrite (nth_map_lt _ _ _ []) by lia.
    apply (wf3_tabulate _ _ _ (fun k hh w => _)).
  - intros n o hh w Hn Ho Hhh Hw. unfold at4.
    rewrite (nth_map_lt _ _ _ []) by lia.
    now rewrite (at3_tabulate _ _ _ (fun k hh w => _)) by assumption.
Qed.

Lemma conv_forward_wf (m : Conv2d T) (x : tensor4 T) (N cin cout H W : nat) :
  conv_fits m cin cout -> wf4 N cin H W x ->
  0 < N -> 0 < cin -> 0 < H -> 0 < cout ->
  exists y, conv_forward m x = Ok y /\ wf4 N cout H W y.
Proof.
  intros Hm Hx HN Hcin HH Hcout. unfold conv_forward.
  destruct (weight_matrix_wf m cin cout Hm) as (Wm & -> & HWm & _). cbn [bind].
  destruct (conv2d_wf x Wm (option_map data (bias m)) N cin cout H W
              Hx HWm HN Hcin HH Hcout) as (y & Hy & Hwf & _).
  now exists y.
Qed.

(** The projector of a convolutional head without attention pooling. *)
Lemma project_resnet (mha : list (list (list T)) -> Z -> list (list T) ->
    list (list T) -> list (list T) -> list T -> list (list T) -> list T -> bool ->
    res (list (list (list T))))
  (h : MaskClipHead T) (q k v c : Conv2d T) (x : tensor4 T) (N cin H W : nat) :
  projs h = ResNetProjs q k v c -> attn_pooling h = false ->
  conv_fits q cin cin -> conv_fits k cin cin -> conv_fits v cin cin ->
  conv_fits c cin (text_channels h) ->
  wf4 N cin H W x -> 0 < N -> 0 < cin -> 0 < H -> 0 < W -> 0 < text_channels h ->
  exists feat key,
    project mha h (Single x) = Ok (feat, Some key, None) /\
    wf4 N (text_channels h) H W feat /\ wf3 N (H * W) cin key.
Proof.
  intros Hp Hap Hq Hk Hv Hc Hx HN Hcin HH HW HCt. unfold project.
  rewrite Hp, Hap.
  destruct (conv_forward_wf q x N cin cin H W Hq Hx HN Hcin HH Hcin) as (yq & -> & Hyq).
  cbn [bind].
  destruct (conv_forward_wf k x N cin cin H W Hk Hx HN Hcin HH Hcin) as (yk & -> & Hyk).
  cbn [bind].
  destruct (conv_forward_wf v x N cin cin H W Hv Hx HN Hcin HH Hcin) as (yv & -> & Hyv).
  cbn [bind].
  destruct (conv_forward_wf c yv N cin (text_channels h) H W Hc Hyv HN Hcin HH HCt)
    as (feat & -> & Hfeat).
  cbn [bind]. eexists. eexists. split; [reflexivity|]. split; [exact Hfeat|].
  unfold flatten_transpose. apply map_transpose2_wf; [now apply flatten_hw_wf|assumption].
Qed.

(** X20: a convolutional head without attention pooling, with
    projections of the sizes [__init__] gives them, maps a feature map
    of shape (N, in, H, W) to logits of shape (N, text_categories, H, W)
    in training mode, and in evaluation mode too when the refinement
    options are at their defaults; its key tensor has one key vector
    per pixel. *)
Theorem forward_conv_head_shape (Inputs : Type)
  (_transform_inputs : Inputs -> res (features T))
  (mha : list (list (list T)) -> Z -> list (list T) -> list (list T) ->
         list (list T) -> list T -> list (list T) -> list T -> bool ->
         res (list (list (list T))))
  (h : MaskClipHead T) (q k v c : Conv2d T) (inputs : Inputs) (x : tensor4 T)
  (N cin H W : nat) :
  projs h = ResNetProjs q k v c -> attn_pooling h = false ->
  conv_fits q cin cin -> conv_fits k cin cin -> conv_fits v cin cin ->
  conv_fits c cin (text_channels h) ->
  wf2 (text_categories h) (text_channels h) (text_embeddings h) ->
  _transform_inputs inputs = Ok (Single x) -> wf4 N cin H W x ->
  0 < N -> 0 < cin -> 0 < H -> 0 < W -> 0 < text_channels h -> 0 < text_categories h ->
  training h = true \/
  ((topk_text h <= 0)%Z /\ sltb szero (cls_thresh h) = false /\ (num_vote h <= 0)%Z /\
   text_categories h <= num_classes h /\ sltb szero (bg_thresh h) = false) ->
  exists out key feat,
    forward _transform_inputs mha h inputs = Ok out /\
    wf4 N (text_categories h) H W out /\
    project mha h (Single x) = Ok (feat, Some key, None) /\
    wf3 N (H * W) cin key.
Proof.
  intros Hp Hap Hq Hk Hv Hc Hemb Htr Hx HN Hcin HH HW HCt HK Hmode.
  destruct (project_resnet mha h q k v c x N cin H W Hp Hap Hq Hk Hv Hc Hx
              HN Hcin HH HW HCt) as (feat & key & Hproj & Hfeat & Hkey).
  destruct (cls_seg_pointwise h feat N H W Hfeat Hemb HN HCt HH HK)
    as (out & Hout & Hwf & _).
  exists out, key, feat. split; [|split; [exact Hwf|split; assumption]].
  unfold forward. rewrite Htr. cbn [bind]. rewrite Hproj. cbn [bind].
  rewrite Hout. cbn [bind].
  destruct Hmode as [Ht|(H1 & H2 & H3 & H4 & H5)].
  - now rewrite Ht.
  - destruct (training h); cbn [negb]; [reflexivity|].
    unfold refine_output. rewrite gate_stage_off by assumption. cbn [bind].
    rewrite vote_stage_off by now right. cbn [bind fst snd].
    now apply bg_stage_off.
Qed.

Lemma projected_token (proj : Conv2d T) (tok : tensor2 T) (N cin Ct : nat) :
  bias proj = None -> conv_fits proj cin Ct -> wf2 N cin tok ->
  0 < N -> 0 < cin -> 0 < Ct ->
  exists Wm c,
    weight_matrix (weight proj) = Ok Wm /\
    conv_forward proj (map (map (fun a : T => [[a]])) tok) = Ok c /\
    map (map (fun ch => at2 ch 0 0)) c = map (fun r => map (dot r) Wm) tok.
Proof.
  intros Hb Hfit Htok HN Hcin HCt.
  destruct (weight_matrix_wf proj cin Ct Hfit) as (Wm & HWm & HWwf & _).
  unfold conv_forward. rewrite HWm, Hb. cbn [bind option_map].
  set (x1 := map (map (fun a : T => [[a]])) tok).
  assert (Hx1 : wf4 N cin 1 1 x1).
  { unfold x1. destruct Htok as [HtL HtF]. split; [now rewrite length_map|].
    apply Forall_map. eapply Forall_impl; [|exact HtF].
    intros r Hr. cbv beta in Hr. split; [now rewrite length_map|].
    apply Forall_map, Forall_forall. intros a _. repeat constructor. }
  destruct (conv2d_wf x1 Wm None N cin Ct 1 1 Hx1 HWwf HN Hcin
              Nat.lt_0_1 HCt) as (y & Hy & Hywf & Hypt).
  exists Wm, y. split; [reflexivity|]. split; [exact Hy|].
  destruct Htok as [HtL HtF]. destruct Hywf as [HyL HyF].
  apply (nth_ext _ _ [] []); [rewrite !length_map; lia|].
  intros n Hn. rewrite length_map, HyL in Hn.
  rewrite !(nth_map_lt _ _ _ []) by lia.
  pose proof (Forall_nth_lt _ _ [] n HyF ltac:(lia)) as [HsL _].
  destruct HWwf as [HWL _].
  apply (nth_ext _ _ szero szero); [rewrite !length_map; lia|].
  intros o Ho. rewrite length_map, HsL in Ho.
  rewrite (nth_map_lt _ _ _ []) by lia.
  rewrite (nth_map_lt _ _ _ []) by lia.
  specialize (Hypt n o 0 0 Hn Ho Nat.lt_0_1 Nat.lt_0_1). cbv zeta in Hypt.
  unfold at4, at3 in Hypt. rewrite Hypt. f_equal.
  unfold x1. rewrite (nth_map_lt _ _ _ []) by lia.
  unfold pixel. rewrite map_map. cbn. apply map_id.
Qed.

(** X21: for a ViT head, projecting the class token as a 1x1 feature
    map and squeezing it back is a linear map: entry [o] of the
    projected token of sample [n] is the inner product of the token
    with row [o] of the projection weight. *)
Theorem project_cls_token_is_linear (mha : list (list (list T)) -> Z ->
    list (list T) -> list (list T) -> list (list T) -> list T -> list (list T) ->
    list T -> bool -> res (list (list (list T))))
  (h : MaskClipHead T) (proj : Conv2d T) (x : tensor4 T) (tok : tensor2 T)
  (N cin H W : nat) :
  projs h = ViTProj proj -> bias proj = None ->
  conv_fits proj cin (text_channels h) ->
  wf4 N cin H W x -> wf2 N cin tok ->
  0 < N -> 0 < cin -> 0 < H -> 0 < text_channels h ->
  exists feat Wm,
    weight_matrix (weight proj) = Ok Wm /\
    project mha h (WithClsToken x tok) =
      Ok (feat, None, Some (map (fun r => map (dot r) Wm) tok)).
Proof.
  intros Hp Hb Hfit Hx Htok HN Hcin HH HCt. unfold project. rewrite Hp.
  destruct (conv_forward_wf proj x N cin (text_channels h) H W Hfit Hx HN Hcin HH HCt)
    as (feat & Hfeat & _).
  rewrite Hfeat. cbn [bind].
  destruct (projected_token proj tok N cin (text_channels h) Hb Hfit Htok HN Hcin HCt)
    as (Wm & c & HWm & Hc & Heq).
  exists feat, Wm. split; [exact HWm|].
  rewrite Hc. cbn [bind]. now rewrite Heq.
Qed.

(** X24: a ViT head given [[[x, cls_token], q, k, v]] takes its feature
    from the value tensor [v], not from [x], and hands both the key [k]
    and the projected class token to the refinement. *)
Theorem project_nested_input (mha : list (list (list T)) -> Z ->
    list (list T) -> list (list T) -> list (list T) -> list T -> list (list T) ->
    list T -> bool -> res (list (list (list T))))
  (h : MaskClipHead T) (proj : Conv2d T) (x v : tensor4 T) (tok : tensor2 T)
  (q k : tensor3 T) (N cin H W : nat) :
  projs h = ViTProj proj -> bias proj = None ->
  conv_fits proj cin (text_channels h) ->
  wf4 N cin H W v -> wf2 N cin tok ->
  0 < N -> 0 < cin -> 0 < H -> 0 < text_channels h ->
  exists feat Wm,
    weight_matrix (weight proj) = Ok Wm /\
    conv_forward proj v = Ok feat /\
    wf4 N (text_channels h) H W feat /\
    project mha h (WithClsTokenQKV x tok q k v) =
      Ok (feat, Some k, Some (map (fun r => map (dot r) Wm) tok)).
Proof.
  intros Hp Hb Hfit Hv Htok HN Hcin HH HCt. unfold project. rewrite Hp.
  destruct (conv_forward_wf proj v N cin (text_channels h) H W Hfit Hv HN Hcin HH HCt)
    as (feat & Hfeat & Hwf).
  destruct (projected_token proj tok N cin (text_channels h) Hb Hfit Htok HN Hcin HCt)
    as (Wm & c & HWm & Hc & Heq).
  exists feat, Wm. split; [exact HWm|]. split; [exact Hfeat|]. split; [exact Hwf|].
  rewrite Hfeat. cbn [bind]. rewrite Hc. cbn [bind]. now rewrite Heq.
Qed.

End ExtraForward.

Section ExtraVoting.

(** X22: over the reals, a convolutional head without attention
    pooling, in evaluation mode, with [num_vote > 0] and the default
    scalar [vote_thresh = 0.0] (and no gating, no background channel)
    returns the sharpened softmax of the classifier's logits: the votes
    change nothing. *)
Theorem forward_default_vote_returns_softmax (Inputs : Type)
  (_transform_inputs : Inputs -> res (features R))
  (mha : list (list (list R)) -> Z -> list (list R) -> list (list R) ->
         list (list R) -> list R -> list (list R) -> list R -> bool ->
         res (list (list (list R))))
  (h : MaskClipHead R) (q k v c : Conv2d R) (inputs : Inputs) (x : tensor4 R)
  (N cin H W : nat) :
  projs h = ResNetProjs q k v c -> attn_pooling h = false ->
  conv_fits q cin cin -> conv_fits k cin cin -> conv_fits v cin cin ->
  conv_fits c cin (text_channels h) ->
  wf2 (text_categories h) (text_channels h) (text_embeddings h) ->
  _transform_inputs inputs = Ok (Single x) -> wf4 N cin H W x ->
  0 < N -> 0 < cin -> 0 < H -> 0 < W -> 0 < text_channels h -> 0 < text_categories h ->
  training h = false ->
  (topk_text h <= 0)%Z -> sltb szero (cls_thresh h) = false ->
  (0 < num_vote h)%Z ->
  vote_thresh h = init_vote_thresh (ThreshScalar 0%R) (num_vote h) ->
  text_categories h <= num_classes h -> sltb szero (bg_thresh h) = false ->
  exists feat key logits,
    project mha h (Single x) = Ok (feat, Some key, None) /\
    cls_seg h feat = Ok logits /\
    forward _transform_inputs mha h inputs = Ok (sharpen logits).
Proof.
  intros Hp Hap Hq Hk Hv Hc Hemb Htr Hx HN Hcin HH HW HCt HK
         Hmode Htop Hcls Hnv Hthr Hcat Hbg.
  destruct (project_resnet mha h q k v c x N cin H W Hp Hap Hq Hk Hv Hc Hx
              HN Hcin HH HW HCt) as (feat & key & Hproj & Hfeat & Hkey).
  destruct (cls_seg_pointwise h feat N H W Hfeat Hemb HN HCt HH HK)
    as (logits & Hlog & Hwf & _).
  exists feat, key, logits. split; [exact Hproj|]. split; [exact Hlog|].
  unfold forward. rewrite Htr. cbn [bind]. rewrite Hproj. cbn [bind].
  rewrite Hlog. cbn [bind]. rewrite Hmode. cbn [negb].
  unfold refine_output. rewrite gate_stage_off by assumption. cbn [bind].
  rewrite (vote_stage_no_overwrite h logits key N (text_categories h) H W cin (sconst 0));
    try assumption.
  - cbn [bind fst snd]. now apply bg_stage_off.
  - now apply (no_pixel_below_zero N (text_categories h) H W).
Qed.

End ExtraVoting.

Section ExtraPooling.
Context {T : Type} {ST : Scalar T} {SE : ScalarExp T}.

Lemma project_without_key (mha : list (list (list T)) -> Z -> list (list T) ->
    list (list T) -> list (list T) -> list T -> list (list T) -> list T -> bool ->
    res (list (list (list T))))
  (h : MaskClipHead T) (x : features T) (feat : tensor4 T)
  (k : option (tensor3 T)) (tok : option (tensor2 T)) :
  vit h = false -> attn_pooling h = true ->
  project mha h x = Ok (feat, k, tok) -> k = None.
Proof.
  unfold project, vit. destruct (projs h) as [proj|q_proj k_proj v_proj c_proj];
    [discriminate|]. intros _ Hap. rewrite Hap.
  destruct x as [x|x q k0 v|x tok0|x tok0 q k0 v]; try discriminate.
  destruct (shape4 x) as [[[N C] H] W].
  repeat match goal with
         | |- context [bind ?m _] =>
             first [destruct m as [?|?] | fail 2]; cbn [bind]; try discriminate
         end.
  intros E. now injection E as _ <- _.
Qed.

(** X23: with attention pooling the projector hands no key tensor to
    the refinement, so spatial voting never runs: the output of
    [forward] is the same whatever [num_vote] and [vote_thresh] are. *)
Theorem forward_attn_pooling_ignores_votes (Inputs : Type)
  (_transform_inputs : Inputs -> res (features T))
  (mha : list (list (list T)) -> Z -> list (list T) -> list (list T) ->
         list (list T) -> list T -> list (list T) -> list T -> bool ->
         res (list (list (list T))))
  (h : MaskClipHead T) (inputs : Inputs) (nv : Z) (vt : list T) :
  vit h = false -> attn_pooling h = true ->
  forward _transform_inputs mha (set_votes h nv vt) inputs =
  forward _transform_inputs mha h inputs.
Proof.
  intros Hv Hap. unfold forward.
  destruct (_transform_inputs inputs) as [x|e]; [|reflexivity]. cbn [bind].
  change (project mha (set_votes h nv vt) x) with (project mha h x).
  destruct (project mha h x) as [[[feat k] tok]|e] eqn:Hp; [|reflexivity].
  cbn [bind]. rewrite (project_without_key mha h x feat k tok Hv Hap Hp).
  change (cls_seg (set_votes h nv vt) feat) with (cls_seg h feat).
  destruct (cls_seg h feat) as [out|e]; [|reflexivity]. cbn [bind].
  change (training (set_votes h nv vt)) with (training h).
  destruct (training h); cbn [negb]; [reflexivity|].
  unfold refine_output.
  change (gate_stage (set_votes h nv vt) out tok) with (gate_stage h out tok).
  destruct (gate_stage h out tok) as [g|e]; [|reflexivity]. cbn [bind].
  reflexivity.
Qed.

End ExtraPooling.

(** ** Further instances at concrete inputs *)

Lemma load_visual_projs_missing_key_witness :
  load_visual_projs (example_head 5 0 0%R 0 [] false) [] = Err KeyError.
Proof.
  apply (proj1 (load_visual_projs_missing_key (example_head 5 0 0%R 0 [] false) [])
               proj_1x1); reflexivity.
Defined.

Lemma load_visual_projs_weight_of_low_rank_witness :
  load_visual_projs (example_head 5 0 0%R 0 [] false) artifact_1d = Err IndexError.
Proof.
  apply (proj1 (proj2 (load_visual_projs_weight_of_low_rank
                         (example_head 5 0 0%R 0 [] false) artifact_1d
                         [("weight"%string, {| shape := [1]; data := [1%R] |})]
                         ltac:(apply Exists_cons_hd; split; [reflexivity | cbn; lia])))
               proj_1x1); reflexivity.
Defined.

Lemma load_visual_projs_keeps_frame_witness :
  projs_shapes (ViTProj (loaded_conv {| shape := [1; 1]; data := [1%R] |} None)) =
  projs_shapes (projs (example_head 5 0 0%R 0 [] false)).
Proof.
  apply (proj1 (load_visual_projs_keeps_frame
                  (example_head 5 0 0%R 0 [] false)
                  (set_projs (example_head 5 0 0%R 0 [] false)
                     (ViTProj (loaded_conv {| shape := [1; 1]; data := [1%R] |} None)))
                  artifact_2d eq_refl)).
Defined.

Lemma load_visual_projs_overwrites_witness :
  load_visual_projs
    (set_projs (example_head 5 0 0%R 0 [] false)
       (ViTProj (loaded_conv {| shape := [1; 1]; data := [1%R] |} None)))
    artifact_2d =
  Ok (set_projs (example_head 5 0 0%R 0 [] false)
        (ViTProj (loaded_conv {| shape := [1; 1]; data := [1%R] |} None))).
Proof.
  apply (proj2 (load_visual_projs_overwrites
                  (example_head 5 0 0%R 0 [] false)
                  (set_projs (example_head 5 0 0%R 0 [] false)
                     (ViTProj (loaded_conv {| shape := [1; 1]; data := [1%R] |} None)))
                  artifact_2d eq_refl)).
Defined.

Lemma load_text_embeddings_copies_file_witness :
  load_text_embeddings (example_head 5 0 0%R 0 [] false) embeddings_5x1 =
  Ok (set_text_embeddings (example_head 5 0 0%R 0 [] false) embeddings_5x1).
Proof.
  apply (load_text_embeddings_copies_file
           (example_head 5 0 0%R 0 [] false) embeddings_5x1 5 1);
    first [lia | solve_wf].
Defined.

Lemma load_text_embeddings_keeps_shape_witness :
  wf2 5 1 embeddings_5x1 /\
  projs (set_text_embeddings (example_head 5 0 0%R 0 [] false) embeddings_5x1) =
  projs (example_head 5 0 0%R 0 [] false).
Proof.
  destruct (load_text_embeddings_keeps_shape
              (example_head 5 0 0%R 0 [] false)
              (set_text_embeddings (example_head 5 0 0%R 0 [] false) embeddings_5x1)
              embeddings_5x1 eq_refl) as (Hwf & Hp & _).
  split; [exact Hwf | exact Hp].
Defined.

Lemma load_text_embeddings_broadcasts_witness :
  load_text_embeddings (example_head 5 0 0%R 0 [] false) [[7%R]] =
  Ok (set_text_embeddings (example_head 5 0 0%R 0 [] false) (repeat [7%R] 5)).
Proof.
  apply (proj1 (load_text_embeddings_broadcasts
                  (example_head 5 0 0%R 0 [] false) 5 1
                  ltac:(solve_wf) ltac:(lia)) [7%R]).
  reflexivity.
Defined.

Lemma init_establishes_shapes_witness :
  exists h,
    __init__ example_args embeddings_5x1 artifact_2d
             (fun _ _ => 0%R) (fun _ _ _ => 0%R) = Ok h /\
    wf2 5 1 (text_embeddings h) /\
    training h = true /\
    vote_thresh h = [0%R; 0%R].
Proof.
  assert (E : exists h, __init__ example_args embeddings_5x1 artifact_2d
                          (fun _ _ => 0%R) (fun _ _ _ => 0%R) = Ok h)
    by (eexists; reflexivity).
  destruct E as [h E]. exists h. split; [exact E|].
  destruct (init_establishes_shapes example_args embeddings_5x1 artifact_2d
              (fun _ _ => 0%R) (fun _ _ _ => 0%R) h E)
    as (Hwf & _ & _ & Htr & _ & Hvt).
  split; [exact Hwf|]. split; [exact Htr|]. exact (Hvt 0%R eq_refl).
Defined.

Lemma init_weights_restores_witness :
  exists h,
    __init__ example_args embeddings_5x1 artifact_2d
             (fun _ _ => 0%R) (fun _ _ _ => 0%R) = Ok h /\
    init_weights (fun h0 => Ok h0) h embeddings_5x1 artifact_2d = Ok h.
Proof.
  assert (E : exists h, __init__ example_args embeddings_5x1 artifact_2d
                          (fun _ _ => 0%R) (fun _ _ _ => 0%R) = Ok h)
    by (eexists; reflexivity).
  destruct E as [h E]. exists h. split; [exact E|].
  apply (init_weights_restores example_args embeddings_5x1 artifact_2d
           (fun _ _ => 0%R) (fun _ _ _ => 0%R) (fun h0 => Ok h0) h h E eq_refl).
  repeat split.
Defined.

Lemma forward_topk_needs_cls_token_witness :
  exists e,
    forward (fun x : features R => Ok x) no_attention
            (example_head 5 2 0%R 0 [] false)
            (WithQKV feat_1x1 key_1x1 key_1x1 feat_1x1) = Err e.
Proof.
  apply (forward_topk_needs_cls_token (features R)
           (fun x : features R => Ok x) no_attention
           (example_head 5 2 0%R 0 [] false)
           (WithQKV feat_1x1 key_1x1 key_1x1 feat_1x1)).
  - reflexivity.
  - cbn. lia.
  - right. right. now exists feat_1x1, key_1x1, key_1x1, feat_1x1.
Defined.

Lemma forward_default_options_witness :
  refine_output (example_head 5 0 0%R 0 [] false) logits_1x5 None None =
  Ok logits_1x5.
Proof.
  apply (proj1 (forward_default_options (features R)
                  (fun x : features R => Ok x) no_attention
                  (example_head 5 0 0%R 0 [] false) (Single feat_1x1)
                  ltac:(cbn; lia) Rsltb_zero_zero ltac:(cbn; lia)
                  ltac:(cbn; lia) Rsltb_zero_zero)).
Defined.

Lemma background_from_threshold_witness :
  exists r,
    refine_output bg_head logits_1x5 None None = Ok r /\
    wf4 1 6 1 1 r /\
    at4 r 0 0 0 0 = (1 / 2)%R.
Proof.
  destruct (background_from_threshold bg_head logits_1x5 None None 1 5 1 1
              ltac:(cbn; lia) Rsltb_zero_zero (or_introl eq_refl)
              ltac:(cbn; lia) Rsltb_zero_half ltac:(solve_wf)
              ltac:(cbn; lia) ltac:(lia) ltac:(lia) ltac:(lia))
    as (r & Hr & Hwf & Hat).
  exists r. split; [exact Hr|]. split; [exact Hwf|].
  exact (proj1 (Hat 0 0 0 ltac:(lia) ltac:(lia) ltac:(lia))).
Defined.

Lemma refine_topk_too_many_witness :
  refine_output (example_head 5 6 0%R 0 [] false) logits_1x5 None (Some token_1x1)
  = Err RuntimeError.
Proof.
  apply (refine_topk_too_many (example_head 5 6 0%R 0 [] false) logits_1x5 None
           token_1x1 1 5 1);
    first [lia | cbn; lia | solve_wf].
Defined.

Lemma topk_gate_copies_whole_samples_witness :
  nth 0 float_logits_2x5 [] = nth 0 float_logits_2x5 [] \/
  nth 0 float_logits_2x5 [] =
    repeat (repeat (repeat (sconst (-100)) 1) 1) 5.
Proof.
  apply (proj2 (topk_gate_copies_whole_samples float_head_topk float_logits_2x5
                  float_logits_2x5 (Some float_tokens_2) 2 5 1 1
                  ltac:(solve_wf) ltac:(lia) ltac:(lia) ltac:(lia)
                  ltac:(vm_compute; reflexivity)) 0).
  lia.
Defined.

Lemma cls_seg_channel_mismatch_witness :
  cls_seg (example_head 5 0 0%R 0 [] false) feat_2ch = Err RuntimeError.
Proof.
  apply (cls_seg_channel_mismatch (example_head 5 0 0%R 0 [] false) feat_2ch 1 2 1 1 5 1);
    first [lia | cbn; lia | solve_wf].
Defined.

Lemma vote_thresh_list_too_short_witness :
  vote_stage (example_head 5 0 0%R 2 [0%R] false) logits_1x5 false (Some key_1x1)
  = Err IndexError.
Proof.
  apply (vote_thresh_list_too_short (example_head 5 0 0%R 2 [0%R] false) logits_1x5
           false key_1x1 1 5 1 1 1);
    first [lia | cbn; lia | solve_wf].
Defined.

Lemma norm2_feat_1x1 : norm2 (pixel (nth 0 feat_1x1 []) 0 0) <> 0%R.
Proof.
  cbv [feat_1x1 nth pixel map at2 at1 norm2 sum_list fold_left szero
       sadd smul ssqrt sconst Scalar_R].
  replace (0 + 1 * 1)%R with 1%R by lra. rewrite sqrt_1. lra.
Qed.

Lemma cls_seg_scale_invariant_witness :
  cls_seg (example_head 5 0 0%R 0 [] false) (map4 (Rmult 2) feat_1x1) =
  cls_seg (example_head 5 0 0%R 0 [] false) feat_1x1.
Proof.
  apply (cls_seg_scale_invariant (example_head 5 0 0%R 0 [] false) feat_1x1 1 1 1 2);
    try first [lra | lia | cbn; lia | solve_wf].
  intros n hh w Hn Hh Hw.
  assert (n = 0) by lia. assert (hh = 0) by lia. assert (w = 0) by lia.
  subst. exact norm2_feat_1x1.
Defined.

Lemma sharpen_is_distribution_witness :
  sum_list (pixel (nth 0 (sharpen logits_1x5) []) 0 0) = 1%R.
Proof.
  apply (proj2 (proj2 (sharpen_is_distribution logits_1x5 1 5 1 1
                         ltac:(solve_wf) ltac:(lia) ltac:(lia))
                      0 0 0 ltac:(lia) ltac:(lia) ltac:(lia))).
Defined.

Lemma forward_conv_head_shape_witness :
  exists out key feat,
    forward (fun x : features R => Ok x) no_attention
            (conv_head 0 0 [] false true) (Single feat_1x1) = Ok out /\
    wf4 1 5 1 1 out /\
    project no_attention (conv_head 0 0 [] false true) (Single feat_1x1) =
      Ok (feat, Some key, None) /\
    wf3 1 (1 * 1) 1 key.
Proof.
  apply (forward_conv_head_shape (features R)
           (fun x : features R => Ok x) no_attention
           (conv_head 0 0 [] false true) conv_1x1 conv_1x1 conv_1x1 conv_1x1
           (Single feat_1x1) feat_1x1 1 1 1 1);
    first [reflexivity | lia | cbn; lia | split; reflexivity | solve_wf
          | left; reflexivity].
Defined.

Lemma project_cls_token_is_linear_witness :
  exists feat Wm,
    weight_matrix (weight proj_1x1) = Ok Wm /\
    project no_attention (example_head 5 0 0%R 0 [] false)
            (WithClsToken feat_1x1 token_1x1) =
      Ok (feat, None, Some (map (fun r => map (dot r) Wm) token_1x1)).
Proof.
  apply (project_cls_token_is_linear no_attention
           (example_head 5 0 0%R 0 [] false) proj_1x1 feat_1x1 token_1x1 1 1 1 1);
    first [reflexivity | lia | cbn; lia | split; reflexivity | solve_wf].
Defined.

Lemma forward_default_vote_returns_softmax_witness :
  exists feat key logits,
    project no_attention (conv_head 0 1 [0%R] false false) (Single feat_1x1) =
      Ok (feat, Some key, None) /\
    cls_seg (conv_head 0 1 [0%R] false false) feat = Ok logits /\
    forward (fun x : features R => Ok x) no_attention
            (conv_head 0 1 [0%R] false false) (Single feat_1x1) =
      Ok (sharpen logits).
Proof.
  apply (forward_default_vote_returns_softmax (features R)
           (fun x : features R => Ok x) no_attention
           (conv_head 0 1 [0%R] false false) conv_1x1 conv_1x1 conv_1x1 conv_1x1
           (Single feat_1x1) feat_1x1 1 1 1 1);
    first [exact Rsltb_zero_zero | reflexivity | lia | cbn; lia
          | split; reflexivity | solve_wf].
Defined.

Lemma forward_attn_pooling_ignores_votes_witness :
  forward (fun x : features R => Ok x) no_attention
          (set_votes (conv_head 0 0 [] true false) 3 [0%R; 0%R; 0%R])
          (Single feat_1x1) =
  forward (fun x : features R => Ok x) no_attention
          (conv_head 0 0 [] true false) (Single feat_1x1).
Proof.
  apply (forward_attn_pooling_ignores_votes (features R)
           (fun x : features R => Ok x) no_attention
           (conv_head 0 0 [] true false) (Single feat_1x1) 3 [0%R; 0%R; 0%R]);
    reflexivity.
Defined.

Lemma project_nested_input_witness :
  exists feat Wm,
    weight_matrix (weight proj_1x1) = Ok Wm /\
    conv_forward proj_1x1 feat_1x1 = Ok feat /\
    wf4 1 1 1 1 feat /\
    project no_attention (example_head 5 0 0%R 0 [] false)
            (WithClsTokenQKV feat_1x1 token_1x1 key_1x1 key_1x1 feat_1x1) =
      Ok (feat, Some key_1x1, Some (map (fun r => map (dot r) Wm) token_1x1)).
Proof.
  apply (project_nested_input no_attention
           (example_head 5 0 0%R 0 [] false) proj_1x1 feat_1x1 feat_1x1 token_1x1
           key_1x1 key_1x1 1 1 1 1);
    first [reflexivity | lia | cbn; lia | split; reflexivity | solve_wf].
Defined.


